(** * Task extraction and caching pipeline of obsidian-task-calendar

    A shallow embedding of the task pipeline of [src/settings.ts]
    ([defaultSort], [TaskOptions], [FileTaskCache], [ItemTaskCache] and
    [ObsidianTaskAdapter]) together with the properties its specification
    states about it.

    Conventions of the embedding:
    - a JavaScript string is a [string]; one character stands for one code
      unit, which is exact for ASCII text;
    - a JavaScript object used as a dictionary ([Record<K, V>]) is a
      [gmap string V];
    - an object that is shared by reference (a cache entry, an array handed
      to a callee) lives in an explicit store and is named by a reference;
    - a call that may throw returns a [Completion]. *)

From Stdlib Require Import ZArith Lia String Ascii List Bool DecimalString.
From Stdlib Require DecimalPos DecimalZ.
From stdpp Require Import gmap strings list fin_maps.

Local Open Scope Z_scope.

(** ** JavaScript values used by the pipeline *)

(** A JavaScript [number]: the pipeline only produces integral ordering
    keys, a user comparator may in addition return [NaN]. *)
Inductive number : Type :=
  | NaN
  | Num (z : Z).

(** [a <= b] on numbers: every comparison with [NaN] is false. *)
Definition number_le (a b : number) : bool :=
  match a, b with
  | Num x, Num y => x <=? y
  | _, _ => false
  end.

(** [a > b] on numbers. *)
Definition number_gt (a b : number) : bool :=
  match a, b with
  | Num x, Num y => y <? x
  | _, _ => false
  end.

(** [a === b] on numbers: [NaN] is not equal to itself. *)
Definition number_strict_eq (a b : number) : bool :=
  match a, b with
  | Num x, Num y => x =? y
  | _, _ => false
  end.

(** The outcome of evaluating an expression that may throw. *)
Inductive Completion (A : Type) : Type :=
  | Normal (a : A)
  | Throw.
Arguments Normal {A} a.
Arguments Throw {A}.

(** ** String primitives *)

Module JsString.

(** White space removed by [String.prototype.trim], as far as a code unit
    below 256 can be one: tab, line feed, vertical tab, form feed, carriage
    return, space and the no-break space (160). *)
Definition is_white_space (c : ascii) : bool :=
  let n := nat_of_ascii c in
  ((9 <=? n)%nat && (n <=? 13)%nat) || (n =? 32)%nat || (n =? 160)%nat.

Fixpoint trimStart (s : string) : string :=
  match s with
  | EmptyString => EmptyString
  | String c s' => if is_white_space c then trimStart s' else s
  end.

(** [trimEnd] drops the trailing run of white space: a white-space
    character is kept only when a kept character follows it. *)
Fixpoint trimEnd (s : string) : string :=
  match s with
  | EmptyString => EmptyString
  | String c s' =>
      match trimEnd s' with
      | EmptyString => if is_white_space c then EmptyString else String c EmptyString
      | t => String c t
      end
  end.

Definition trim (s : string) : string := trimEnd (trimStart s).

(** [s.split(sep)] for a one-character separator; the result is never
    empty ([''.split('/')] is [['']]). *)
Fixpoint split (sep : ascii) (s : string) : list string :=
  match s with
  | EmptyString => [EmptyString]
  | String c s' =>
      if Ascii.eqb c sep then EmptyString :: split sep s'
      else match split sep s' with
           | [] => [String c EmptyString]
           | h :: t => String c h :: t
           end
  end.

(** [s.replace(c, '')] for a one-character string pattern: only the first
    occurrence is removed. *)
Fixpoint remove_first (c : ascii) (s : string) : string :=
  match s with
  | EmptyString => EmptyString
  | String d s' => if Ascii.eqb d c then s' else String d (remove_first c s')
  end.

(** [s.slice(0, i)] for [0 <= i]. *)
Fixpoint take (i : nat) (s : string) : string :=
  match i, s with
  | O, _ => EmptyString
  | S _, EmptyString => EmptyString
  | S j, String c s' => String c (take j s')
  end.

(** [s.slice(i)] for [0 <= i]. *)
Fixpoint drop (i : nat) (s : string) : string :=
  match i, s with
  | O, _ => s
  | S _, EmptyString => EmptyString
  | S j, String _ s' => drop j s'
  end.

(** [hay.includes(needle)]. *)
Fixpoint includes (needle hay : string) : bool :=
  String.prefix needle hay ||
  match hay with
  | EmptyString => false
  | String _ hay' => includes needle hay'
  end.

(** [Array.prototype.every] with the index passed to the callback. *)
Fixpoint every_from {A} (f : A -> nat -> bool) (i : nat) (l : list A) : bool :=
  match l with
  | [] => true
  | x :: l' => f x i && every_from f (S i) l'
  end.

Definition every {A} (f : A -> nat -> bool) (l : list A) : bool :=
  every_from f 0 l.

(** [[...new Set(l)]]: the distinct elements in order of first
    occurrence. *)
Fixpoint dedup_from (seen : list string) (l : list string) : list string :=
  match l with
  | [] => []
  | x :: l' =>
      if existsb (String.eqb x) seen then dedup_from seen l'
      else x :: dedup_from (x :: seen) l'
  end.

Definition dedup (l : list string) : list string := dedup_from [] l.

(** [z.toString()] for an integral number. *)
Definition toString (z : Z) : string := NilZero.string_of_int (Z.to_int z).

End JsString.

(** ** The default comparator *)

(** [SortableTask]: the part of a task a comparator looks at.  [order] is
    optional; a [null] or [undefined] task reads as one without [order]
    ([t?.order ?? 0]). *)
Record SortableTask : Type := { st_order : option number }.

(** A comparator: what it answers, or that it throws, is taken to depend on
    its two arguments only; a closure that keeps state between calls is
    outside this model. *)
Definition SortFunction : Type := SortableTask -> SortableTask -> Completion number.

(** [t?.order ?? 0] *)
Definition order_or_zero (t : SortableTask) : number :=
  match st_order t with
  | Some o => o
  | None => Num 0
  end.

(** [defaultSort], settings.ts lines 1200-1213.  Reading a field of a plain
    record does not throw, so the [catch] clause is never entered. *)
Definition defaultSort (t1 t2 : SortableTask) : number :=
  let o1 := order_or_zero t1 in
  let o2 := order_or_zero t2 in
  if number_le o1 o2 then Num (-1)
  else if number_strict_eq o1 o2 then Num 0
  else Num 1.

(** ** Document path selection *)

Record TFile : Type := { tf_path : string }.

Definition slash : ascii := "/"%char.

(** [ObsidianTaskAdapter.isParent], lines 1529-1534.  [paths[i]] beyond the
    end of [paths] is [undefined], which no segment equals. *)
Definition isParent (parent path : string) : bool :=
  if (String.length path <? String.length parent)%nat then false
  else
    let paths := JsString.split slash path in
    let parents := JsString.split slash parent in
    JsString.every
      (fun v i => match paths !! i with
                  | Some p => String.eqb v p
                  | None => false
                  end)
      parents.

(** [ObsidianTaskAdapter.pathsIncludeFile], lines 1536-1539. *)
Definition pathsIncludeFile (filter : list string) (file : TFile) : bool :=
  (length filter =? 0)%nat
  || existsb (fun includePath => isParent includePath (tf_path file)) filter.

(** [ObsidianTaskAdapter.pathsExcludeFilter], lines 1541-1544. *)
Definition pathsExcludeFilter (filter : list string) (file : TFile) : bool :=
  (length filter =? 0)%nat
  || forallb (fun excludePath => negb (isParent excludePath (tf_path file))) filter.

(** ** Task records *)

(** A [Link] of dataview-util is only carried through by the parser; it is
    represented by its target. *)
Definition Link : Type := string.

(** [Loc] and [Pos] of the host API. *)
Record Loc : Type := { loc_line : Z; loc_col : Z; loc_offset : Z }.
Record Pos : Type := { pos_start : Loc; pos_end : Loc }.

(** A value found in a document's front matter, as far as the parser
    distinguishes values: a string, an array (of tag names), another object
    (a mapping, on which [forEach] is not a function), or anything else
    (numbers, booleans, [null]). *)
Inductive FrontMatterValue : Type :=
  | FmString (s : string)
  | FmArray (l : list string)
  | FmObject
  | FmOther.

Definition FrontMatterCache : Type := gmap string FrontMatterValue.

(** A point in time ([moment]); no date is produced by the parser itself. *)
Definition Moment : Type := Z.

Module Task.

(** [TaskDataModel], with the fields of the object literal built by
    [fromLine] (lines 1808-1844).  [list_] is the field [list];
    [children] and [subtasks] hold references to other tasks. *)
Record TaskDataModel : Type := {
  symbol : string;
  link : Link;
  section : Link;
  text : string;
  visual : option string;
  tags : list string;
  line : Z;
  lineCount : Z;
  list_ : Z;
  outlinks : list Link;
  path : string;
  children : list nat;
  task : bool;
  annotated : bool;
  position : Pos;
  subtasks : list nat;
  real : bool;
  header : Link;
  status : string;
  statusMarker : string;
  checked : bool;
  completed : bool;
  fullyCompleted : bool;
  dailyNote : bool;
  order : number;
  priority : string;
  recurrence : string;
  frontMatter : FrontMatterCache;
  isTasksTask : bool;
  due : option Moment;
  scheduled : option Moment;
  start : option Moment;
  completion : option Moment;
  dates : gmap string Moment
}.


(** The same without the raw line kept in [text]. *)
Definition derived_string_fields (t : TaskDataModel) : list string :=
  [symbol t; link t; section t; default ""%string (visual t); path t;
   header t; status t; statusMarker t; priority t; recurrence t]
  ++ tags t ++ outlinks t.

End Task.

Import Task.

(** ** Regular expressions *)

(** What [fromLine] uses of [TaskRegularExpressions]: the capture groups 1
    to 4 of [line.match(taskRegex)], and the index and text of the first
    match of [blockLinkRegex]. *)
Record RegExps : Type := {
  taskRegex : string -> option (string * string * string * string);
  blockLinkRegex : string -> option (nat * string)
}.

(** [s.match(re)[0]] or [''] when there is no match (line 1791). *)
Definition match0_or_empty (re : string -> option (nat * string)) (s : string) : string :=
  match re s with
  | Some (_, m) => m
  | None => ""%string
  end.

(** [s.replace(re, '')] for a regular expression without the global flag:
    the first match is cut out. *)
Definition replace_with_empty (re : string -> option (nat * string)) (s : string) : string :=
  match re s with
  | Some (i, m) => JsString.take i s +:+ JsString.drop (i + String.length m) s
  | None => s
  end.

Module SpecRegex.

(** Longest prefix whose characters satisfy [p], and the rest. *)
Fixpoint span (p : ascii -> bool) (s : string) : string * string :=
  match s with
  | EmptyString => (EmptyString, EmptyString)
  | String c s' =>
      if p c then let '(a, b) := span p s' in (String c a, b)
      else (EmptyString, s)
  end.

Fixpoint all_chars (p : ascii -> bool) (s : string) : bool :=
  match s with
  | EmptyString => true
  | String c s' => p c && all_chars p s'
  end.

Definition in_range (lo hi : nat) (c : ascii) : bool :=
  ((lo <=? nat_of_ascii c) && (nat_of_ascii c <=? hi))%nat.

Definition is_digit (c : ascii) : bool := in_range 48 57 c.
Definition is_space (c : ascii) : bool := Ascii.eqb c " "%char.
Definition is_indent (c : ascii) : bool :=
  JsString.is_white_space c || Ascii.eqb c ">"%char.
Definition is_line_terminator (c : ascii) : bool :=
  (nat_of_ascii c =? 10)%nat || (nat_of_ascii c =? 13)%nat.
Definition is_block_id_char (c : ascii) : bool :=
  in_range 97 122 c || in_range 65 90 c || is_digit c || Ascii.eqb c "-"%char.

(** A bullet ([-], [*], [+]) or a number followed by a dot. *)
Definition list_marker (s : string) : option (string * string) :=
  match s with
  | EmptyString => None
  | String c r =>
      if Ascii.eqb c "-"%char || Ascii.eqb c "*"%char || Ascii.eqb c "+"%char
      then Some (String c EmptyString, r)
      else
        let '(ds, r') := span is_digit s in
        match ds, r' with
        | String _ _, String d r'' =>
            if Ascii.eqb d "."%char then Some (ds +:+ ".", r'') else None
        | _, _ => None
        end
  end.

(** Modelled from the spec: [TaskRegularExpressions.taskRegex] of
    utils/tasks is not among the sources.  A task line is optional
    indentation (white space and quote marks), a list marker, at least one
    space, a status marker in brackets, then the body (up to the end of the
    line, leading spaces dropped). *)
Definition task_line (ln : string) : option (string * string * string * string) :=
  let '(indent, r1) := span is_indent ln in
  match list_marker r1 with
  | None => None
  | Some (marker, r2) =>
      let '(sp, r3) := span is_space r2 in
      match sp, r3 with
      | String _ _, String o (String c (String e r4)) =>
          if Ascii.eqb o "["%char && Ascii.eqb e "]"%char && negb (is_line_terminator c)
          then
            let '(_, r5) := span is_space r4 in
            let '(body, _) := span (fun x => negb (is_line_terminator x)) r5 in
            Some (indent, marker, String c EmptyString, body)
          else None
      | _, _ => None
      end
  end.

(** A space, a caret and a non-empty identifier of letters, digits and
    hyphens, up to the end of the text. *)
Definition block_link_here (s : string) : bool :=
  match s with
  | String a (String b ident) =>
      Ascii.eqb a " "%char && Ascii.eqb b "^"%char
      && negb (String.eqb ident "") && all_chars is_block_id_char ident
  | _ => false
  end.

Fixpoint block_link_from (i : nat) (s : string) : option (nat * string) :=
  if block_link_here s then Some (i, s)
  else match s with
       | EmptyString => None
       | String _ s' => block_link_from (S i) s'
       end.

(** Modelled from the spec: [TaskRegularExpressions.blockLinkRegex] of
    utils/tasks is not among the sources.  A block-reference token is a
    caret-prefixed identifier at the end of the line.  The spec does not say
    what may stand before the caret: this expression takes the token
    together with one space before it, so a caret that follows the
    description without a space, or a body that is only the token, is not a
    match.  The properties of [fromLine] below are stated for any
    expression and depend on this choice only in their examples. *)
Definition block_link (s : string) : option (nat * string) := block_link_from 0 s.

Definition TaskRegularExpressions : RegExps :=
  {| taskRegex := task_line; blockLinkRegex := block_link |}.

End SpecRegex.

(** ** The line parser *)

(** The arguments of [fromLine] that are objects, hence passed by
    reference: what the callee does to them is seen by the caller. *)
Record RefArgs : Type := {
  arg_parent : Link;
  arg_position : Pos;
  arg_outLinks : list Link;
  arg_tags : list string;
  arg_frontMatter : option FrontMatterCache
}.

Definition with_tags (a : RefArgs) (l : list string) : RefArgs :=
  {| arg_parent := arg_parent a; arg_position := arg_position a;
     arg_outLinks := arg_outLinks a; arg_tags := l;
     arg_frontMatter := arg_frontMatter a |}.

(** Lines 1798-1800: a non-empty string under [tag] is pushed. *)
Definition push_tag (fm : FrontMatterCache) (tags : list string) : list string :=
  match fm !! "tag"%string with
  | Some (FmString s) => if String.eqb s "" then tags else tags ++ [s]
  | _ => tags
  end.

(** Lines 1801-1803: every element of an array under [tags] is pushed; any
    other object passes the [typeof] test too, and calling its missing
    [forEach] throws. *)
Definition push_tags (fm : FrontMatterCache) (tags : list string) : Completion (list string) :=
  match fm !! "tags"%string with
  | Some (FmArray l) => Normal (tags ++ l)
  | Some FmObject => Throw
  | _ => Normal tags
  end.

(** [ObsidianTaskAdapter.fromLine], lines 1762-1846.  The second component
    is the state of the by-reference arguments when the call ends. *)
Definition fromLine (rx : RegExps) (ln filePath : string) (a : RefArgs)
  : Completion (option TaskDataModel) * RefArgs :=
  match taskRegex rx ln with
  | None => (Normal None, a)
  | Some (_, listMarker, statusString, g4) =>
      let body := JsString.trim g4 in
      let blockLink := match0_or_empty (blockLinkRegex rx) body in
      let description :=
        if negb (String.eqb blockLink "")
        then JsString.trim (replace_with_empty (blockLinkRegex rx) body)
        else body in
      let tags1 :=
        match arg_frontMatter a with
        | Some fm => push_tag fm (arg_tags a)
        | None => arg_tags a
        end in
      let pushed :=
        match arg_frontMatter a with
        | Some fm => push_tags fm tags1
        | None => Normal tags1
        end in
      match pushed with
      | Throw => (Throw, with_tags a tags1)
      | Normal tags2 =>
          let position := arg_position a in
          let parent := arg_parent a in
          (Normal (Some
             {| symbol := listMarker;
                link := parent;
                section := parent;
                text := ln;
                visual := Some (JsString.trim description);
                tags := JsString.dedup tags2;
                line := loc_line (pos_start position);
                lineCount := loc_line (pos_end position) - loc_line (pos_start position) + 1;
                list_ := loc_line (pos_start position);
                outlinks := arg_outLinks a;
                path := filePath;
                children := [];
                task := true;
                annotated := false;
                position := position;
                subtasks := [];
                real := true;
                header := parent;
                status := statusString;
                statusMarker := statusString;
                checked := negb (String.length (JsString.remove_first " "%char description) =? 0)%nat;
                completed := String.eqb statusString "x";
                fullyCompleted := negb (String.eqb statusString " ");
                dailyNote := false;
                order := Num 0;
                priority := ""%string;
                recurrence := ""%string;
                frontMatter := default ∅ (arg_frontMatter a);
                isTasksTask := false;
                due := None;
                scheduled := None;
                start := None;
                completion := None;
                dates := ∅ |}),
           with_tags a tags2)
      end
  end.

(** ** Options, filters and the comparator *)

Module Options.

(** The options read by the filter chain and by the comparator
    validation ([UserOptions], lines 219-510); the other options do not
    reach them. *)
Record UserOptions : Type := {
  filterEmpty : bool;
  useIncludeTags : bool;
  _taskIncludeTags : list string;
  useExcludeTags : bool;
  _taskExcludeTags : list string;
  sort : string;
  _hideStatusTasks : list string
}.

(** [Partial<UserOption>]: every option may be absent. *)
Record PartialUserOption : Type := {
  p_filterEmpty : option bool;
  p_useIncludeTags : option bool;
  p_taskIncludeTags : option (list string);
  p_useExcludeTags : option bool;
  p_taskExcludeTags : option (list string);
  p_sort : option string;
  p_hideStatusTasks : option (list string)
}.

(** [UserOptions.set], lines 468-509: [settings.x ?? this.x]. *)
Definition UserOptions_set (settings : PartialUserOption) (this : UserOptions) : UserOptions :=
  {| filterEmpty := default (filterEmpty this) (p_filterEmpty settings);
     useIncludeTags := default (useIncludeTags this) (p_useIncludeTags settings);
     _taskIncludeTags := default (_taskIncludeTags this) (p_taskIncludeTags settings);
     useExcludeTags := default (useExcludeTags this) (p_useExcludeTags settings);
     _taskExcludeTags := default (_taskExcludeTags this) (p_taskExcludeTags settings);
     sort := default (sort this) (p_sort settings);
     _hideStatusTasks := default (_hideStatusTasks this) (p_hideStatusTasks settings) |}.

(** The initial values of the fields (lines 223-444). *)
Definition defaultUserOptions : UserOptions :=
  {| filterEmpty := true;
     useIncludeTags := false;
     _taskIncludeTags := [];
     useExcludeTags := false;
     _taskExcludeTags := [];
     sort := "(t1, t2) => t1.order <= t2.order ? -1 : 1";
     _hideStatusTasks := ["x"; "-"]%string |}.

(** [TaskOptions] extends [UserOptions] with the installed comparator.
    Its [filters] are always [getFilters] of the object itself. *)
Record TaskOptions : Type := {
  user : UserOptions;
  sortFunction : SortFunction
}.

(** [new TaskOptions()], lines 1215-1222. *)
Definition new_TaskOptions : TaskOptions :=
  {| user := defaultUserOptions;
     sortFunction := fun a b => Normal (defaultSort a b) |}.

Definition TaskFilter : Type := TaskDataModel -> bool.

(** A modifier may answer [null], which drops the task. *)
Definition TaskModifier : Type := TaskDataModel -> option TaskDataModel.

Section Filters.

(** [TaskStatusMarkerMap] of utils/tasks, which is not among the
    sources: the status a marker stands for, if any. *)
Variable TaskStatusMarkerMap : string -> option string.

(** Status filter, lines 1232-1238. *)
Definition statusFilter (opts : UserOptions) : TaskFilter :=
  fun task =>
    if (length (_hideStatusTasks opts) =? 0)%nat then true
    else if existsb (String.eqb (statusMarker task)) (_hideStatusTasks opts) then false
    else negb (existsb
                 (fun marker =>
                    match TaskStatusMarkerMap marker with
                    | Some s => String.eqb s (status task)
                    | None => false
                    end)
                 (_hideStatusTasks opts)).

(** Tag filter, includes: lines 1242-1249. *)
Definition includeTagsFilter (opts : UserOptions) : TaskFilter :=
  fun task =>
    if negb (useIncludeTags opts) then true
    else
      let tagIncludes := _taskIncludeTags opts in
      if (length tagIncludes =? 0)%nat then true
      else if existsb (fun tag => existsb (String.eqb tag) (tags task)) tagIncludes then true
      else false.

(** Tag filter, exclusions: lines 1253-1260. *)
Definition excludeTagsFilter (opts : UserOptions) : TaskFilter :=
  fun task =>
    if negb (useExcludeTags opts) then true
    else
      let tagExcludes := _taskExcludeTags opts in
      if (length tagExcludes =? 0)%nat then true
      else if forallb (fun tag => negb (existsb (String.eqb tag) (tags task))) tagExcludes then true
      else false.

(** Filter empty, lines 1264-1267. *)
Definition emptyFilter (opts : UserOptions) : TaskFilter :=
  fun task =>
    let visual := default ""%string (JsString.trim <$> visual task) in
    negb (filterEmpty opts) || negb (String.eqb visual "").

(** [getFilters], lines 1227-1270. *)
Definition getFilters (opts : UserOptions) : list TaskFilter :=
  [statusFilter opts; includeTagsFilter opts; excludeTagsFilter opts; emptyFilter opts].

(** The modifier chain of [FileTaskCache.getTasks], lines 1408-1411. *)
Definition applyModifiers (modifiers : list TaskModifier) (t : TaskDataModel)
  : option TaskDataModel :=
  fold_left (fun acc modifier => match acc with
                                 | Some t' => modifier t'
                                 | None => None
                                 end)
            modifiers (Some t).

(** The loop of [FileTaskCache.getTasks], lines 1401-1416, over the
    resolved items of a document ([None] is a [null] item). *)
Fixpoint getTasks (modifiers : list TaskModifier) (filters : list TaskFilter)
         (items : list (option TaskDataModel)) : list TaskDataModel :=
  match items with
  | [] => []
  | None :: rest => getTasks modifiers filters rest
  | Some t :: rest =>
      match applyModifiers modifiers t with
      | Some transformedTask =>
          if forallb (fun filter => filter transformedTask) filters
          then transformedTask :: getTasks modifiers filters rest
          else getTasks modifiers filters rest
      | None => getTasks modifiers filters rest
      end
  end.

End Filters.

(** What [console.warn] receives in [TaskOptions.set]. *)
Inductive Warning : Type := SortingLambdaInvalid.

(** The probe of line 1315. *)
Definition probe (f : SortFunction) : Completion number :=
  f {| st_order := Some (Num 2) |} {| st_order := Some (Num 1) |}.

(** [TaskOptions.set], lines 1224-1329.  [eval] is the global [eval]
    followed by the cast to a function: it throws on text that does not
    evaluate; a value that is not callable is a function that throws. *)
Definition TaskOptions_set (eval : string -> Completion SortFunction)
           (settings : PartialUserOption) (this : TaskOptions)
  : TaskOptions * list Warning :=
  let u := UserOptions_set settings (user this) in
  match eval (sort u) with
  | Normal f =>
      match probe f with
      | Normal test =>
          if number_gt test (Num 0)
          then ({| user := u; sortFunction := f |}, [])
          else ({| user := u; sortFunction := sortFunction this |}, [SortingLambdaInvalid])
      | Throw => ({| user := u; sortFunction := sortFunction this |}, [SortingLambdaInvalid])
      end
  | Throw => ({| user := u; sortFunction := sortFunction this |}, [SortingLambdaInvalid])
  end.

End Options.

(** ** Cache entries and the pending-resolution registry *)

Module Cache.

(** Objects are told apart by reference. *)
Definition FileRef : Type := nat.
Definition ItemRef : Type := nat.
Definition PromiseRef : Type := nat.

(** [ListItemCache] of the host API, as far as the cache reads it. *)
Record ListItemCache : Type := {
  li_id : option string;
  li_parent : Z;
  li_position : Pos
}.

(** The read-only fields of a [FileTaskCache] (lines 1353-1371). *)
Record FileTaskCache : Type := {
  fc_ref : FileRef;
  fc_id : string
}.

(** The read-only fields of an [ItemTaskCache] (lines 1445-1454); its one
    mutable field [_asyncTaskData] is kept in the [World]. *)
Record ItemTaskCache : Type := {
  this_ref : ItemRef;
  _fileCache : FileTaskCache;
  _item : ListItemCache;
  id : string
}.

(** [new ItemTaskCache(fileCache, item)], lines 1450-1454. *)
Definition new_ItemTaskCache (r : ItemRef) (fileCache : FileTaskCache) (item : ListItemCache)
  : ItemTaskCache :=
  {| this_ref := r;
     _fileCache := fileCache;
     _item := item;
     id := fc_id fileCache
           +:+ match li_id item with
               | Some s => s
               | None => JsString.toString (li_parent item)
               end |}.

(** How the awaited [fromItemCache] settles. *)
Inductive Outcome : Type :=
  | Resolved (t : TaskDataModel)
  | ResolvedNull
  | Rejected.

(** The state of a promise returned by [getTaskDataModel]. *)
Inductive Settlement : Type :=
  | Pending
  | FulfilledWith (v : option TaskDataModel).

(** The shared mutable state: the two queues of the adapter, the
    [_asyncTaskData] field of every item cache entry (absent is [null]),
    the promises made, the calls of [fromItemCache] in order, and the
    number of warnings logged. *)
Record World : Type := {
  internalFileQueue : gmap string (list FileRef);
  internalListQueue : gmap string ItemRef;
  _asyncTaskData : gmap ItemRef PromiseRef;
  promises : list Settlement;
  parses : list ItemRef;
  warnings : nat
}.

Definition emptyWorld : World :=
  {| internalFileQueue := ∅; internalListQueue := ∅; _asyncTaskData := ∅;
     promises := []; parses := []; warnings := 0%nat |}.

(** [if (!(key in queue)) queue[key] = [];] *)
Definition ensure (key : string) (q : gmap string (list FileRef)) : gmap string (list FileRef) :=
  match q !! key with
  | Some _ => q
  | None => <[key := []]> q
  end.

(** [queue[key].push(x)] on a queue that has [key]. *)
Definition push (key : string) (x : FileRef) (q : gmap string (list FileRef))
  : gmap string (list FileRef) :=
  <[key := default [] (q !! key) ++ [x]]> q.

(** [queue[key].remove(x)] of the host API: every occurrence of [x] is
    taken out. *)
Definition array_remove (key : string) (x : FileRef) (q : gmap string (list FileRef))
  : gmap string (list FileRef) :=
  <[key := filter (fun y => y ≠ x) (default [] (q !! key))]> q.

(** [ItemTaskCache.resolved], lines 1456-1458. *)
Definition resolved (r : ItemRef) (w : World) : bool :=
  bool_decide (is_Some (_asyncTaskData w !! r)).

(** [ItemTaskCache.remove], lines 1467-1478. *)
Definition remove (this : ItemTaskCache) (w : World) : World :=
  let q1 := ensure (id this) (internalFileQueue w) in
  let q2 := array_remove (id this) (fc_ref (_fileCache this)) q1 in
  {| internalFileQueue := q2;
     internalListQueue := delete (id this) (internalListQueue w);
     _asyncTaskData := _asyncTaskData w;
     promises := promises w;
     parses := parses w;
     warnings := warnings w |}.

(** [ItemTaskCache.getTaskDataModel], lines 1480-1498: the part that runs
    when the function is called, up to the [await].  It answers the
    promise of the call. *)
Definition getTaskDataModel (this : ItemTaskCache) (w : World) : PromiseRef * World :=
  let fid := fc_id (_fileCache this) in
  let q := push fid (fc_ref (_fileCache this)) (ensure fid (internalFileQueue w)) in
  let itemTaskCache :=
    match internalListQueue w !! id this with
    | Some other => if resolved other w then None else Some other
    | None => None
    end in
  (length (promises w),
   {| internalFileQueue := q;
      internalListQueue := <[id this := default (this_ref this) itemTaskCache]> (internalListQueue w);
      _asyncTaskData := _asyncTaskData w;
      promises := promises w ++ [Pending];
      parses := parses w ++ [this_ref this];
      warnings := warnings w |}).

(** Lines 1498-1505: the part that runs once the awaited parse has
    settled; [p] is the promise of the call. *)
Definition getTaskDataModel_resume (this : ItemTaskCache) (p : PromiseRef)
           (o : Outcome) (w : World) : World :=
  let taskData := match o with Resolved t => Some t | _ => None end in
  let w1 := remove this w in
  {| internalFileQueue := internalFileQueue w1;
     internalListQueue := internalListQueue w1;
     _asyncTaskData := _asyncTaskData w1;
     promises := <[p := FulfilledWith taskData]> (promises w1);
     parses := parses w1;
     warnings := match o with Rejected => S (warnings w1) | _ => warnings w1 end |}.

(** [ItemTaskCache.task], lines 1460-1465. *)
Definition task (this : ItemTaskCache) (w : World) : PromiseRef * World :=
  match _asyncTaskData w !! this_ref this with
  | Some p => (p, w)
  | None =>
      let '(p, w1) := getTaskDataModel this w in
      (p,
       {| internalFileQueue := internalFileQueue w1;
          internalListQueue := internalListQueue w1;
          _asyncTaskData := <[this_ref this := p]> (_asyncTaskData w1);
          promises := promises w1;
          parses := parses w1;
          warnings := warnings w1 |})
  end.

(** What a requester holding promise [p] observes. *)
Definition observe (p : PromiseRef) (w : World) : Settlement :=
  default Pending (promises w !! p).

(** What happens to the cache entries over time: some entry's [task] is
    read, or some entry's resolution completes. *)
Inductive Event : Type :=
  | Access (it : ItemTaskCache)
  | Complete (it : ItemTaskCache) (p : PromiseRef) (o : Outcome).

(** Runs the events in order and collects what every access answers,
    with the entry it was made on. *)
Fixpoint run (evs : list Event) (w : World) : list (ItemRef * PromiseRef) * World :=
  match evs with
  | [] => ([], w)
  | Access it :: rest =>
      let '(p, w1) := task it w in
      let '(answers, w2) := run rest w1 in
      ((this_ref it, p) :: answers, w2)
  | Complete it p o :: rest => run rest (getTaskDataModel_resume it p o w)
  end.

(** How often the parse of entry [r] was started. *)
Definition parse_count (r : ItemRef) (w : World) : nat :=
  count_occ Nat.eq_dec (parses w) r.

End Cache.

(** ** The adapter's task table *)

Module Adapter.

(** [PromiseSettledResult<T | null>] *)
Inductive PromiseSettledResult (T : Type) : Type :=
  | fulfilled (value : option T)
  | rejected (reason : option string).
Arguments fulfilled {T} value.
Arguments rejected {T} reason.

(** [getFulfilled], lines 1332-1339. *)
Definition getFulfilled {T} (values : list (PromiseSettledResult T)) : list T :=
  omap (fun input => match input with
                     | fulfilled (Some v) => Some v
                     | _ => None
                     end) values.

(** [getRejected], lines 1341-1345. *)
Definition getRejected {T} (values : list (PromiseSettledResult T)) : list string :=
  omap (fun input => match input with
                     | rejected reason => Some (default "Unknown error."%string reason)
                     | _ => None
                     end) values.

(** The merge of [setTasks], lines 1602-1604. *)
Definition mergeTasks (tasks : list TaskDataModel) (_tasks : gmap string TaskDataModel)
  : gmap string TaskDataModel :=
  fold_left (fun tbl t => <[path t := t]> tbl) tasks _tasks.

(** [setTasks], lines 1586-1606, from the settled document resolutions
    on: the records returned, the errors logged and the new table. *)
Definition setTasks (settled : list (PromiseSettledResult (list TaskDataModel)))
           (_tasks : gmap string TaskDataModel)
  : list TaskDataModel * list string * gmap string TaskDataModel :=
  let tasks := concat (getFulfilled settled) in
  let errors := getRejected settled in
  (tasks, errors, mergeTasks tasks _tasks).

End Adapter.

(** ** Notions used in the statements *)

Section Notions.

Import Options Cache.

(** Every segment weighs its length plus one separator. *)
Definition weight (l : list string) : nat :=
  foldr (fun x n => S (String.length x) + n)%nat 0%nat l.

Definition segments (s : string) : list string := JsString.split slash s.

(** The segments of [parent] are the leading segments of [path]. *)
Definition leading_segments (parent path : string) : Prop :=
  forall i v, segments parent !! i = Some v -> segments path !! i = Some v.

(** A text that is empty or starts with a character that is not white
    space. *)
Definition starts_clean (s : string) : Prop :=
  match s with
  | EmptyString => True
  | String c _ => JsString.is_white_space c = false
  end.

(** The description computed by [fromLine] (lines 1778-1795). *)
Definition description_of (rx : RegExps) (g4 : string) : string :=
  let body := JsString.trim g4 in
  if negb (String.eqb (match0_or_empty (blockLinkRegex rx) body) "")
  then JsString.trim (replace_with_empty (blockLinkRegex rx) body)
  else body.

Definition origin : Loc := {| loc_line := 0; loc_col := 0; loc_offset := 0 |}.

(** A by-reference argument bundle for a one-line item at the top of a
    document without front matter. *)
Definition plain_args (parent : Link) (width : Z) (tags : list string) : RefArgs :=
  {| arg_parent := parent;
     arg_position := {| pos_start := origin;
                        pos_end := {| loc_line := 0; loc_col := width; loc_offset := width |} |};
     arg_outLinks := [];
     arg_tags := tags;
     arg_frontMatter := None |}.


(** The tags a document declares in its front matter, in the order in which
    [fromLine] reads them. *)
Definition declared_tags (frontMatter : option FrontMatterCache) : list string :=
  match frontMatter with
  | None => []
  | Some fm =>
      match fm !! "tag"%string with
      | Some (FmString s) => if String.eqb s "" then [] else [s]
      | _ => []
      end
      ++ match fm !! "tags"%string with
         | Some (FmArray l) => l
         | _ => []
         end
  end.

Definition with_useIncludeTags (b : bool) (o : UserOptions) : UserOptions :=
  {| filterEmpty := filterEmpty o; useIncludeTags := b;
     _taskIncludeTags := _taskIncludeTags o; useExcludeTags := useExcludeTags o;
     _taskExcludeTags := _taskExcludeTags o; sort := sort o;
     _hideStatusTasks := _hideStatusTasks o |}.

Definition with_useExcludeTags (b : bool) (o : UserOptions) : UserOptions :=
  {| filterEmpty := filterEmpty o; useIncludeTags := useIncludeTags o;
     _taskIncludeTags := _taskIncludeTags o; useExcludeTags := b;
     _taskExcludeTags := _taskExcludeTags o; sort := sort o;
     _hideStatusTasks := _hideStatusTasks o |}.

Definition with_filterEmpty (b : bool) (o : UserOptions) : UserOptions :=
  {| filterEmpty := b; useIncludeTags := useIncludeTags o;
     _taskIncludeTags := _taskIncludeTags o; useExcludeTags := useExcludeTags o;
     _taskExcludeTags := _taskExcludeTags o; sort := sort o;
     _hideStatusTasks := _hideStatusTasks o |}.

Definition with_hideStatusTasks (l : list string) (o : UserOptions) : UserOptions :=
  {| filterEmpty := filterEmpty o; useIncludeTags := useIncludeTags o;
     _taskIncludeTags := _taskIncludeTags o; useExcludeTags := useExcludeTags o;
     _taskExcludeTags := _taskExcludeTags o; sort := sort o;
     _hideStatusTasks := l |}.

(** A task passes the chain when every filter answers true. *)
Definition passes (TaskStatusMarkerMap : string -> option string)
           (o : UserOptions) (t : TaskDataModel) : bool :=
  forallb (fun filter => filter t) (getFilters TaskStatusMarkerMap o).

(** The tasks a document contributes under options [o]. *)
Definition kept (TaskStatusMarkerMap : string -> option string)
           (o : UserOptions) (modifiers : list TaskModifier)
           (items : list (option TaskDataModel)) : list TaskDataModel :=
  getTasks modifiers (getFilters TaskStatusMarkerMap o) items.

(** The comparator source evaluates to a function that answers a positive
    number on the probe. *)
Definition validates (evaluated : Completion SortFunction) : bool :=
  match evaluated with
  | Normal f =>
      match probe f with
      | Normal test => number_gt test (Num 0)
      | Throw => false
      end
  | Throw => false
  end.

(** A comparator by difference of the ordering keys. *)
Definition byDifference : SortFunction :=
  fun a b =>
    match st_order a, st_order b with
    | Some (Num x), Some (Num y) => Normal (Num (x - y))
    | _, _ => Normal NaN
    end.

(** An evaluator that knows one comparator source. *)
Definition evalDifference (src : string) : Completion SortFunction :=
  if String.eqb src "(t1, t2) => t1.order - t2.order" then Normal byDifference else Throw.

Definition setSort (src : string) : PartialUserOption :=
  {| p_filterEmpty := None; p_useIncludeTags := None; p_taskIncludeTags := None;
     p_useExcludeTags := None; p_taskExcludeTags := None; p_sort := Some src;
     p_hideStatusTasks := None |}.

(** The first and the second task of the document [a.md]. *)
Definition firstTask : Completion (option TaskDataModel) :=
  fst (fromLine SpecRegex.TaskRegularExpressions "- [ ] one" "a.md"
         {| arg_parent := "a.md"%string;
            arg_position := {| pos_start := {| loc_line := 0; loc_col := 0; loc_offset := 0 |};
                               pos_end := {| loc_line := 0; loc_col := 9; loc_offset := 9 |} |};
            arg_outLinks := []; arg_tags := []; arg_frontMatter := None |}).

Definition secondTask : Completion (option TaskDataModel) :=
  fst (fromLine SpecRegex.TaskRegularExpressions "- [ ] two" "a.md"
         {| arg_parent := "a.md"%string;
            arg_position := {| pos_start := {| loc_line := 1; loc_col := 0; loc_offset := 10 |};
                               pos_end := {| loc_line := 1; loc_col := 9; loc_offset := 19 |} |};
            arg_outLinks := []; arg_tags := []; arg_frontMatter := None |}).

(** The document [a.md] and its root list item without a block id. *)
Definition document : FileTaskCache := {| fc_ref := 0%nat; fc_id := "a.md" |}.

Definition rootItem : ItemTaskCache :=
  new_ItemTaskCache 0%nat document
    {| li_id := None; li_parent := -1;
       li_position := {| pos_start := {| loc_line := 0; loc_col := 0; loc_offset := 0 |};
                         pos_end := {| loc_line := 0; loc_col := 9; loc_offset := 9 |} |} |}.

End Notions.

(** ** Document metadata and scheduling *)

Module Scan.

(** [TagCache], [LinkCache] and [SectionCache] of the host API, as far as
    the adapter reads them. *)
Record TagCache : Type := { tc_tag : string; tc_position : Pos }.
Record LinkCache : Type := { lc_link : string; lc_position : Pos }.
Record SectionCache : Type := { sc_type : string; sc_position : Pos }.

(** [CachedMetadata]: every part may be [undefined]. *)
Record CachedMetadata : Type := {
  cm_listItems : option (list Cache.ListItemCache);
  cm_sections : option (list SectionCache);
  cm_links : option (list LinkCache);
  cm_frontmatter : option FrontMatterCache;
  cm_tags : option (list TagCache)
}.

Section Host.

(** [this._app.metadataCache.getFileCache]: [None] is [null]. *)
Variable getFileCache : TFile -> option CachedMetadata.

(** [ObsidianTaskAdapter.fileIncludeTagsFilter], lines 1546-1555. *)
Definition fileIncludeTagsFilter (filter : list string) (file : TFile) : bool :=
  match getFileCache file with
  | None => true
  | Some cache =>
      if (length filter =? 0)%nat then true
      else match cm_tags cache with
           | None => true
           | Some tagCaches =>
               let tags := map tc_tag tagCaches in
               existsb (fun tag => existsb (String.eqb tag) tags) filter
           end
  end.

(** [ObsidianTaskAdapter.fileExcludeTagsFilter], lines 1557-1566. *)
Definition fileExcludeTagsFilter (filter : list string) (file : TFile) : bool :=
  match getFileCache file with
  | None => true
  | Some cache =>
      if (length filter =? 0)%nat then true
      else match cm_tags cache with
           | None => true
           | Some tagCaches =>
               let tags := map tc_tag tagCaches in
               forallb (fun tag => negb (existsb (String.eqb tag) tags)) filter
           end
  end.

(** The last filter of [generateTasksList], lines 1653-1658: it files an
    empty list under every path it meets and keeps the documents with
    nothing in flight. *)
Fixpoint newFiles (files : list TFile) (q : gmap string (list Cache.FileRef))
  : list TFile * gmap string (list Cache.FileRef) :=
  match files with
  | [] => ([], q)
  | file :: rest =>
      let q1 := Cache.ensure (tf_path file) q in
      let keep := (length (default [] (q1 !! tf_path file)) =? 0)%nat in
      let '(kept_rest, q2) := newFiles rest q1 in
      (if keep then file :: kept_rest else kept_rest, q2)
  end.

(** [ObsidianTaskAdapter.generateTasksList], lines 1640-1660.  [files] is
    what [getMarkdownFiles] answers, [next] the reference of the first
    [FileTaskCache] made; the second component is [internalFileQueue]
    afterwards. *)
Definition generateTasksList (files : list TFile)
           (includeFilter excludeFilter includeTags excludeTags : list string)
           (next : Cache.FileRef) (q : gmap string (list Cache.FileRef))
  : list Cache.FileTaskCache * gmap string (list Cache.FileRef) :=
  let filteredIncluded := List.filter (pathsIncludeFile includeFilter) files in
  let filteredExcluded := List.filter (pathsExcludeFilter excludeFilter) filteredIncluded in
  let filteredIncludedTags := List.filter (fileIncludeTagsFilter includeTags) filteredExcluded in
  let filteredExcludedTags := List.filter (fileExcludeTagsFilter excludeTags) filteredIncludedTags in
  let '(selected, q') := newFiles filteredExcludedTags q in
  (imap (fun i file => {| Cache.fc_ref := (next + i)%nat; Cache.fc_id := tf_path file |}) selected,
   q').

End Host.

End Scan.

(** ** From a list item to a task record *)

Module ItemParse.

Import Scan.

(** [s.slice(start, end)]: negative indices count from the end, and both
    are clamped to the text. *)
Definition slice (first last : Z) (s : string) : string :=
  let len := Z.of_nat (String.length s) in
  let from := if first <? 0 then Z.max (len + first) 0 else Z.min first len in
  let to := if last <? 0 then Z.max (len + last) 0 else Z.min last len in
  JsString.take (Z.to_nat (to - from)) (JsString.drop (Z.to_nat from) s).

Definition start_line (p : Pos) : Z := loc_line (pos_start p).

(** One turn of the heading loop of [findParent], lines 1707-1716. *)
Definition nearer_heading (itemLine : Z) (acc : Z * option SectionCache) (section : SectionCache)
  : Z * option SectionCache :=
  let '(position, parentHeader) := acc in
  if String.eqb (sc_type section) "heading"
     && (position <? start_line (sc_position section))
     && (start_line (sc_position section) <? itemLine)
  then (start_line (sc_position section), Some section)
  else (position, parentHeader).

(** [findParent] of [fromItemCache], lines 1696-1720. *)
Definition findParent (sections : option (list SectionCache)) (item : Cache.ListItemCache)
  : option SectionCache :=
  match sections with
  | None => None
  | Some sections =>
      if 0 <? Cache.li_parent item
      then List.find (fun section => start_line (sc_position section) =? Cache.li_parent item)
                     sections
      else snd (fold_left (nearer_heading (start_line (Cache.li_position item)))
                          sections (-1, None))
  end.

(** [findOutLinks], lines 1722-1725. *)
Definition findOutLinks (links : option (list LinkCache)) (line : Z) : list LinkCache :=
  match links with
  | None => []
  | Some links => List.filter (fun s => start_line (lc_position s) =? line) links
  end.

(** [findTags], lines 1727-1730. *)
Definition findTags (tagsCache : option (list TagCache)) (line : Z) : list string :=
  match tagsCache with
  | None => []
  | Some tagsCache =>
      map tc_tag (List.filter (fun cache => start_line (tc_position cache) =? line) tagsCache)
  end.

(** A heading that starts above line [itemLine]. *)
Definition heading_before (itemLine : Z) (section : SectionCache) : Prop :=
  sc_type section = "heading"%string
  /\ -1 < start_line (sc_position section)
  /\ start_line (sc_position section) < itemLine.

(** A document with a heading and one task under it, and its metadata. *)
Definition sampleContent : string := "# Shop

- [ ] buy milk #todo
".

Definition sampleItem : Cache.ListItemCache :=
  {| Cache.li_id := None; Cache.li_parent := -2;
     Cache.li_position :=
       {| pos_start := {| loc_line := 2; loc_col := 0; loc_offset := 8 |};
          pos_end := {| loc_line := 2; loc_col := 20; loc_offset := 28 |} |} |}.

Definition sampleSections : list SectionCache :=
  [ {| sc_type := "heading";
       sc_position :=
         {| pos_start := {| loc_line := 0; loc_col := 0; loc_offset := 0 |};
            pos_end := {| loc_line := 0; loc_col := 6; loc_offset := 6 |} |} |} ].

Definition sampleTags : list TagCache :=
  [ {| tc_tag := "#todo";
       tc_position :=
         {| pos_start := {| loc_line := 2; loc_col := 15; loc_offset := 23 |};
            pos_end := {| loc_line := 2; loc_col := 20; loc_offset := 28 |} |} |} ].

(** A stand-in for [Link.withSectionCache]: the section text after [#]. *)
Definition sampleWithSection (l : Link) (s : SectionCache) (headingText : string) : Link :=
  l +:+ "#" +:+ headingText.

(** What the heading loop has found after the sections [seen]. *)
Definition nearest_so_far (itemLine : Z) (seen : list SectionCache)
           (acc : Z * option SectionCache) : Prop :=
  match snd acc with
  | None => fst acc = -1 /\ forall s, In s seen -> ~ heading_before itemLine s
  | Some h =>
      fst acc = start_line (sc_position h)
      /\ In h seen
      /\ heading_before itemLine h
      /\ forall s, In s seen -> heading_before itemLine s ->
                   start_line (sc_position s) <= start_line (sc_position h)
  end.

Section FromItemCache.

Variable rx : RegExps.

(** [Link.withSectionCache] and [Link.withLinkCache] of dataview-util,
    which is not among the sources. *)
Variable withSectionCache : Link -> SectionCache -> string -> Link.
Variable withLinkCache : LinkCache -> Link.

(** [ObsidianTaskAdapter.fromItemCache], lines 1686-1746.  [fileContent]
    is how the awaited read settles.  The tags array handed to [fromLine]
    is made here and dropped afterwards. *)
Definition fromItemCache (item : Cache.ListItemCache) (link : Link) (filePath : string)
           (fileContent : Completion string)
           (sections : option (list SectionCache)) (links : option (list LinkCache))
           (frontMatter : option FrontMatterCache) (tagsCache : option (list TagCache))
  : Completion (option TaskDataModel) :=
  match fileContent with
  | Throw => Throw
  | Normal fileContentView =>
      let sliceFileContent := fun position : Pos =>
        slice (loc_offset (pos_start position)) (loc_offset (pos_end position)) fileContentView in
      let itemPosition := Cache.li_position item in
      let itemText := sliceFileContent itemPosition in
      let parentItem := findParent sections item in
      let outLinks := findOutLinks links (start_line itemPosition) in
      let parentLink :=
        match parentItem with
        | Some section => withSectionCache link section (sliceFileContent (sc_position section))
        | None => link
        end in
      let outLinkLinks := map withLinkCache outLinks in
      let tags := findTags tagsCache (start_line itemPosition) in
      fst (fromLine rx itemText filePath
             {| arg_parent := parentLink; arg_position := itemPosition;
                arg_outLinks := outLinkLinks; arg_tags := tags;
                arg_frontMatter := frontMatter |})
  end.

End FromItemCache.

End ItemParse.

(** ** The ordering modifier and the offered comparators *)

Module Ordering.

(** The position of the first occurrence, if any. *)
Fixpoint index_of (s : string) (l : list string) : option nat :=
  match l with
  | [] => None
  | x :: l' => if String.eqb x s then Some 0%nat else S <$> index_of s l'
  end.

(** [l.indexOf(s)]: -1 when [s] does not occur. *)
Definition indexOf (s : string) (l : list string) : Z :=
  match index_of s l with
  | Some n => Z.of_nat n
  | None => -1
  end.

(** [t.order = n] *)
Definition with_order (n : number) (t : TaskDataModel) : TaskDataModel :=
  {| symbol := symbol t; link := link t; section := section t; text := text t;
     visual := visual t; tags := tags t; line := line t; lineCount := lineCount t;
     list_ := list_ t; outlinks := outlinks t; path := path t; children := children t;
     task := task t; annotated := annotated t; position := position t;
     subtasks := subtasks t; real := real t; header := header t; status := status t;
     statusMarker := statusMarker t; checked := checked t; completed := completed t;
     fullyCompleted := fullyCompleted t; dailyNote := dailyNote t; order := n;
     priority := priority t; recurrence := recurrence t; frontMatter := frontMatter t;
     isTasksTask := isTasksTask t; due := due t; scheduled := scheduled t;
     start := start t; completion := completion t; dates := dates t |}.

(** The last modifier of [getModifiers], lines 1297-1302; the getter
    [taskStatusOrder] always answers an array. *)
Definition orderByStatus (taskStatusOrder : list string) : Options.TaskModifier :=
  fun t =>
    if negb (existsb (String.eqb (status t)) taskStatusOrder) then Some t
    else Some (with_order (Num (indexOf (status t) taskStatusOrder + 1)) t).

(** The initial [_taskStatusOrder], lines 331-340. *)
Definition defaultTaskStatusOrder : list string :=
  ["overdue"; "due"; "scheduled"; "start"; "process"; "unplanned"; "done"; "cancelled"]%string.

(** A task as the comparator of [tasks.sort] sees it. *)
Definition sortable (t : TaskDataModel) : SortableTask := {| st_order := Some (order t) |}.

(** [(t1, t2) => t1.order <= t2.order ? -1 : 1], the first entry of
    [sortOptions] (line 6): a missing [order] compares false. *)
Definition statusAscending : SortFunction :=
  fun t1 t2 =>
    match st_order t1, st_order t2 with
    | Some o1, Some o2 => Normal (if number_le o1 o2 then Num (-1) else Num 1)
    | _, _ => Normal (Num 1)
    end.

(** [(t1, t2) => t1.order >= t2.order ? -1 : 1], the second entry of
    [sortOptions] (line 7). *)
Definition statusDescending : SortFunction :=
  fun t1 t2 =>
    match st_order t1, st_order t2 with
    | Some o1, Some o2 => Normal (if number_le o2 o1 then Num (-1) else Num 1)
    | _, _ => Normal (Num 1)
    end.

(** [setOptions] called once per entry of [settings], in order (lines
    1669-1671): the options object is kept from call to call. *)
Definition setOptionsAll (eval : string -> Completion SortFunction)
           (settings : list Options.PartialUserOption) (this : Options.TaskOptions)
  : Options.TaskOptions :=
  fold_left (fun o s => fst (Options.TaskOptions_set eval s o)) settings this.

(** A task with the given status and ordering key and nothing else. *)
Definition blank_task (st : string) (key : number) : TaskDataModel :=
  {| symbol := "-"; link := ""; section := ""; text := ""; visual := Some ""%string;
     tags := []; line := 0; lineCount := 1; list_ := 0; outlinks := []; path := "";
     children := []; task := true; annotated := false;
     position := {| pos_start := origin; pos_end := origin |};
     subtasks := []; real := true; header := ""; status := st; statusMarker := " ";
     checked := false; completed := false; fullyCompleted := false; dailyNote := false;
     order := key; priority := ""; recurrence := ""; frontMatter := ∅;
     isTasksTask := false; due := None; scheduled := None; start := None;
     completion := None; dates := ∅ |}.

End Ordering.

(** ** Further notions used in the statements *)

Section MoreNotions.

Import Cache.

(** [l.join('/')] *)
Fixpoint join (l : list string) : string :=
  match l with
  | [] => EmptyString
  | x :: l' =>
      match l' with
      | [] => x
      | _ :: _ => x +:+ String slash (join l')
      end
  end.

(** Every entry of the table is filed under the path of its record. *)
Definition keyed_by_path (tbl : gmap string TaskDataModel) : Prop :=
  forall key t, tbl !! key = Some t -> path t = key.

(** The last record of [tasks] that belongs to document [key]. *)
Definition last_of_path (key : string) (tasks : list TaskDataModel) : option TaskDataModel :=
  last (List.filter (fun t => String.eqb (path t) key) tasks).

(** Every entry registered in the item queue has its resolution
    memoized. *)
Definition registered_are_started (w : World) : Prop :=
  forall key r, internalListQueue w !! key = Some r -> is_Some (_asyncTaskData w !! r).

(** The entry an event is about. *)
Definition event_item (e : Event) : ItemTaskCache :=
  match e with
  | Access it => it
  | Complete it _ _ => it
  end.

(** The documents in flight under [key]. *)
Definition in_flight (key : string) (q : gmap string (list FileRef)) : list FileRef :=
  default [] (q !! key).

(** What the promise of a resolution settles to. *)
Definition settled_value (o : Outcome) : option TaskDataModel :=
  match o with
  | Resolved t => Some t
  | _ => None
  end.

End MoreNotions.

(** ** Transformers that may throw *)

Module Guarded.

(** A modifier or filter, as user options and parsers make them, may
    throw. *)
Definition TaskModifier : Type := TaskDataModel -> Completion (option TaskDataModel).
Definition TaskFilter : Type := TaskDataModel -> Completion bool.

(** The callback of the reduction, line 1409: [task ? modifier(task) :
    null].  An exception leaves the reduction at once. *)
Definition reduceStep (acc : Completion (option TaskDataModel)) (modifier : TaskModifier)
  : Completion (option TaskDataModel) :=
  match acc with
  | Normal (Some task) => modifier task
  | Normal None => Normal None
  | Throw => Throw
  end.

(** [this._modifiers.reduce(..., task)], lines 1408-1411. *)
Definition applyModifiers (modifiers : list TaskModifier) (task : TaskDataModel)
  : Completion (option TaskDataModel) :=
  fold_left reduceStep modifiers (Normal (Some task)).

(** [this._filters.every((filter) => filter(transformedTask))], line 1413:
    the first filter that answers false ends the test. *)
Fixpoint every (filters : list TaskFilter) (transformedTask : TaskDataModel)
  : Completion bool :=
  match filters with
  | [] => Normal true
  | filter :: rest =>
      match filter transformedTask with
      | Normal true => every rest transformedTask
      | Normal false => Normal false
      | Throw => Throw
      end
  end.

(** The loop of [FileTaskCache.getTasks] with its [catch], lines 1399-1420,
    over the resolved items of a document ([None] is a [null] item; the
    promise of an item is never rejected).  An exception ends the loop: the
    tasks pushed so far stay, and one warning is logged.  The second
    component counts the warnings. *)
Fixpoint getTasks (modifiers : list TaskModifier) (filters : list TaskFilter)
         (items : list (option TaskDataModel)) : list TaskDataModel * nat :=
  match items with
  | [] => ([], 0%nat)
  | None :: rest => getTasks modifiers filters rest
  | Some task :: rest =>
      match applyModifiers modifiers task with
      | Throw => ([], 1%nat)
      | Normal None => getTasks modifiers filters rest
      | Normal (Some transformedTask) =>
          match every filters transformedTask with
          | Throw => ([], 1%nat)
          | Normal false => getTasks modifiers filters rest
          | Normal true =>
              let '(tasks, warned) := getTasks modifiers filters rest in
              (transformedTask :: tasks, warned)
          end
      end
  end.

(** *** What the chain and the loop are meant to do *)

(** The modifiers are applied one after the other, each to what the one
    before gave; a modifier that gives [null] or throws is the last one
    applied. *)
Inductive chain_gives : list TaskModifier -> TaskDataModel ->
                        Completion (option TaskDataModel) -> Prop :=
  | chain_done t : chain_gives [] t (Normal (Some t))
  | chain_next m rest t u r :
      m t = Normal (Some u) -> chain_gives rest u r -> chain_gives (m :: rest) t r
  | chain_dropped m rest t :
      m t = Normal None -> chain_gives (m :: rest) t (Normal None)
  | chain_failed m rest t :
      m t = Throw -> chain_gives (m :: rest) t Throw.





End Guarded.

(** * Properties *)

(** ** Strings *)

Section StringFacts.

Lemma split_not_nil sep s : JsString.split sep s <> [].
Proof.
  destruct s as [|c s]; simpl; [discriminate|].
  destruct (Ascii.eqb c sep); [discriminate|].
  destruct (JsString.split sep s); discriminate.
Qed.

Lemma weight_split sep s : weight (JsString.split sep s) = S (String.length s).
Proof.
  induction s as [|c s IH]; simpl; [reflexivity|].
  destruct (Ascii.eqb c sep); simpl; [now rewrite IH|].
  destruct (JsString.split sep s) as [|h t] eqn:E.
  - now destruct (split_not_nil sep s).
  - simpl in *. lia.
Qed.

Lemma weight_app l k : weight (l ++ k) = (weight l + weight k)%nat.
Proof. induction l as [|x l IH]; simpl; [reflexivity|]. rewrite IH. lia. Qed.

Lemma every_from_spec {A} (f : A -> nat -> bool) l i :
  JsString.every_from f i l = true <->
  forall k x, l !! k = Some x -> f x (i + k)%nat = true.
Proof.
  revert i. induction l as [|y l IH]; intros i; simpl.
  - split; [intros _ k x Hk; now rewrite lookup_nil in Hk | reflexivity].
  - rewrite andb_true_iff, IH. split.
    + intros [Hy Hl] [|k] x Hk; simpl in Hk.
      * injection Hk as <-. now rewrite Nat.add_0_r.
      * replace (i + S k)%nat with (S i + k)%nat by lia. now apply Hl.
    + intros H. split.
      * rewrite <- (Nat.add_0_r i). now apply (H 0%nat).
      * intros k x Hk. replace (S i + k)%nat with (i + S k)%nat by lia.
        now apply (H (S k)).
Qed.

Lemma string_eqb_true (a b : string) : String.eqb a b = true <-> a = b.
Proof. apply String.eqb_eq. Qed.

(** Segment-wise agreement is being a prefix of the segment list. *)
Lemma lookup_agree_prefix (l k : list string) :
  (forall i v, l !! i = Some v -> k !! i = Some v) <-> l `prefix_of` k.
Proof.
  split.
  - revert k. induction l as [|x l IH]; intros k H.
    + apply prefix_nil.
    + destruct k as [|y k].
      * specialize (H 0%nat x eq_refl). discriminate.
      * pose proof (H 0%nat x eq_refl) as H0. simpl in H0. injection H0 as ->.
        apply prefix_cons. apply IH. intros i v Hi. exact (H (S i) v Hi).
  - intros [m ->] i v Hi. now apply lookup_app_l_Some.
Qed.

End StringFacts.

(** ** Path selection *)

Lemma leading_segments_length parent path :
  leading_segments parent path -> (String.length parent <= String.length path)%nat.
Proof.
  intros H. apply lookup_agree_prefix in H. destruct H as [m Hm].
  pose proof (weight_split slash parent) as Hp.
  pose proof (weight_split slash path) as Hq.
  unfold segments in Hm. rewrite Hm, weight_app in Hq. lia.
Qed.

Lemma isParent_leading_segments parent path :
  isParent parent path = true <-> leading_segments parent path.
Proof.
  unfold isParent, leading_segments, segments, JsString.every.
  split.
  - destruct (String.length path <? String.length parent)%nat; [discriminate|].
    rewrite every_from_spec. intros H i v Hi.
    specialize (H i v Hi). simpl in H.
    destruct (JsString.split slash path !! i) as [p|]; [|discriminate].
    apply string_eqb_true in H. now subst.
  - intros H.
    pose proof (leading_segments_length parent path H) as Hlen.
    destruct (Nat.ltb_spec (String.length path) (String.length parent)); [lia|].
    apply every_from_spec. intros i v Hi. simpl.
    rewrite (H i v Hi). now apply string_eqb_true.
Qed.

(** C8. A document path is selected by an include prefix exactly when every
    '/'-separated segment of the prefix equals the corresponding leading
    segment of the path, and an empty include list keeps every document;
    [Projects] selects [Projects/x.md] and not [Archive/x.md], and [note]
    does not select [note2]. *)
Theorem pathsIncludeFile_prefix_segments :
  (forall parent path, isParent parent path = true <-> leading_segments parent path)
  /\ (forall filter file,
        pathsIncludeFile filter file = true <->
        filter = [] \/ exists includePath,
                         In includePath filter /\ leading_segments includePath (tf_path file))
  /\ pathsIncludeFile ["Projects"%string] {| tf_path := "Projects/x.md" |} = true
  /\ pathsIncludeFile ["Projects"%string] {| tf_path := "Archive/x.md" |} = false
  /\ isParent "note" "note2" = false.
Proof.
  split; [exact isParent_leading_segments|].
  split; [|repeat split; reflexivity].
  intros filter file. unfold pathsIncludeFile.
  rewrite orb_true_iff, existsb_exists. split.
  - intros [H|[x [Hx Hp]]].
    + left. destruct filter; [reflexivity|discriminate].
    + right. exists x. split; [exact Hx|]. now apply isParent_leading_segments.
  - intros [->|[x [Hx Hp]]]; [now left|].
    right. exists x. split; [exact Hx|]. now apply isParent_leading_segments.
Qed.

(** ** The default comparator *)

(** C10. [defaultSort] never returns 0: with an absent order read as 0, it
    returns -1 when the first order is at most the second and 1 otherwise
    (also when an order is not a number); for equal orders it returns -1
    under both argument orders, and the equality test is only reached with
    operands that are not equal. *)
Theorem defaultSort_never_zero :
  forall t1 t2 : SortableTask,
    let o1 := default (Num 0) (st_order t1) in
    let o2 := default (Num 0) (st_order t2) in
    defaultSort t1 t2 <> Num 0
    /\ match o1, o2 with
       | Num x, Num y => defaultSort t1 t2 = (if x <=? y then Num (-1) else Num 1)
       | _, _ => defaultSort t1 t2 = Num 1
       end
    /\ (forall x, o1 = Num x -> o2 = Num x ->
                  defaultSort t1 t2 = Num (-1) /\ defaultSort t2 t1 = Num (-1))
    /\ (number_le o1 o2 = false -> number_strict_eq o1 o2 = false).
Proof.
  intros [a] [b] o1 o2. subst o1 o2. unfold defaultSort, order_or_zero. simpl.
  assert (Hcase : forall x y,
             (if x <=? y then Num (-1) else if x =? y then Num 0 else Num 1)
             = (if x <=? y then Num (-1) else Num 1)).
  { intros x y. destruct (Z.leb_spec x y); [reflexivity|].
    destruct (Z.eqb_spec x y); [lia|reflexivity]. }
  assert (Hdead : forall x y, (x <=? y) = false -> (x =? y) = false).
  { intros x y H. apply Z.leb_gt in H. apply Z.eqb_neq. lia. }
  destruct a as [[|x]|], b as [[|y]|]; simpl; rewrite ?Hcase;
    (split; [try discriminate; destruct (_ <=? _); discriminate|]);
    (split; [reflexivity|]);
    (split; [intros z Hx Hy; try discriminate Hx; try discriminate Hy;
             inversion Hx; inversion Hy; subst;
             rewrite ?Z.leb_refl; split; reflexivity
            |try reflexivity; try apply Hdead]).
Qed.

(** ** Trimming *)

Lemma trimStart_clean s : starts_clean (JsString.trimStart s).
Proof.
  induction s as [|c s IH]; simpl; [exact I|].
  destruct (JsString.is_white_space c) eqn:E; [exact IH|exact E].
Qed.

Lemma trimStart_of_clean s : starts_clean s -> JsString.trimStart s = s.
Proof. destruct s as [|c s]; simpl; [reflexivity|]. now intros ->. Qed.

Lemma trimEnd_clean s : starts_clean s -> starts_clean (JsString.trimEnd s).
Proof.
  destruct s as [|c s]; simpl; [exact id|]. intros E.
  destruct (JsString.trimEnd s); [rewrite E|]; exact E.
Qed.

Lemma trimEnd_idempotent s : JsString.trimEnd (JsString.trimEnd s) = JsString.trimEnd s.
Proof.
  induction s as [|c s IH]; simpl; [reflexivity|].
  destruct (JsString.trimEnd s) as [|d t] eqn:E.
  - destruct (JsString.is_white_space c) eqn:W; simpl; [reflexivity|now rewrite W].
  - simpl. simpl in IH. now rewrite IH.
Qed.

Lemma trim_clean s : starts_clean (JsString.trim s).
Proof. apply trimEnd_clean, trimStart_clean. Qed.

Lemma trim_idempotent s : JsString.trim (JsString.trim s) = JsString.trim s.
Proof.
  unfold JsString.trim at 1.
  rewrite (trimStart_of_clean _ (trim_clean s)).
  apply trimEnd_idempotent.
Qed.

(** Removing the first space of a trimmed text empties it only when it was
    empty. *)
Lemma remove_first_space_clean s :
  starts_clean s ->
  (String.length (JsString.remove_first " "%char s) =? 0)%nat = String.eqb s "".
Proof.
  destruct s as [|c s]; simpl; [reflexivity|]. intros E.
  destruct (Ascii.eqb_spec c " "%char) as [->|_]; [discriminate E|reflexivity].
Qed.





(** ** The line parser *)

Lemma description_clean rx g4 : starts_clean (description_of rx g4).
Proof.
  unfold description_of.
  destruct (negb _); apply trim_clean.
Qed.

Lemma description_trimmed rx g4 :
  JsString.trim (description_of rx g4) = description_of rx g4.
Proof.
  unfold description_of.
  destruct (negb _); apply trim_idempotent.
Qed.

(** The record of a call that returns one. *)
Lemma fromLine_returns rx ln filePath a t :
  fst (fromLine rx ln filePath a) = Normal (Some t) ->
  exists g1 g2 g3 g4,
    taskRegex rx ln = Some (g1, g2, g3, g4)
    /\ symbol t = g2
    /\ statusMarker t = g3
    /\ status t = g3
    /\ text t = ln
    /\ path t = filePath
    /\ visual t = Some (description_of rx g4)
    /\ checked t = negb (String.eqb (description_of rx g4) "")
    /\ completed t = String.eqb g3 "x"
    /\ fullyCompleted t = negb (String.eqb g3 " ")
    /\ tags t = JsString.dedup (arg_tags (snd (fromLine rx ln filePath a))).
Proof.
  unfold fromLine.
  destruct (taskRegex rx ln) as [[[[g1 g2] g3] g4]|]; [|discriminate].
  fold (description_of rx g4).
  destruct (match arg_frontMatter a with
            | Some fm => push_tags fm _
            | None => _
            end) as [tags2|]; [|discriminate].
  simpl. intros H. injection H as <-. simpl.
  exists g1, g2, g3, g4.
  rewrite description_trimmed, (remove_first_space_clean _ (description_clean rx g4)).
  repeat split; reflexivity.
Qed.

Lemma fromLine_no_match rx ln filePath a :
  taskRegex rx ln = None -> fromLine rx ln filePath a = (Normal None, a).
Proof. intros H. unfold fromLine. now rewrite H. Qed.


(** The spec-modelled block-link expression finds a caret-prefixed
    identifier that ends the text, wherever it starts. *)
Lemma all_chars_space p (x y : string) :
  p " "%char = false -> SpecRegex.all_chars p (x +:+ String " " y) = false.
Proof.
  intros Hp. induction x as [|c x IH].
  - change (p " "%char && SpecRegex.all_chars p y = false). now rewrite Hp.
  - change (p c && SpecRegex.all_chars p (x +:+ String " " y) = false).
    rewrite IH. apply andb_false_r.
Qed.

Lemma block_link_here_token ident :
  ident <> ""%string ->
  SpecRegex.all_chars SpecRegex.is_block_id_char ident = true ->
  SpecRegex.block_link_here (String " " (String "^" ident)) = true.
Proof.
  intros Hne Hall. simpl. rewrite Hall, andb_true_r.
  destruct ident; [congruence|reflexivity].
Qed.

Lemma block_link_here_before c (pre ident : string) :
  SpecRegex.block_link_here (String c (pre +:+ String " " (String "^" ident))) = false.
Proof.
  destruct pre as [|b pre].
  - change (Ascii.eqb c " " && Ascii.eqb " " "^"
            && negb (String.eqb (String "^" ident) "")
            && SpecRegex.all_chars SpecRegex.is_block_id_char (String "^" ident) = false).
    simpl. now rewrite !andb_false_r.
  - change (Ascii.eqb c " " && Ascii.eqb b "^"
            && negb (String.eqb (pre +:+ String " " (String "^" ident)) "")
            && SpecRegex.all_chars SpecRegex.is_block_id_char
                 (pre +:+ String " " (String "^" ident)) = false).
    rewrite all_chars_space; [apply andb_false_r|reflexivity].
Qed.

Lemma block_link_from_suffix i (pre ident : string) :
  ident <> ""%string ->
  SpecRegex.all_chars SpecRegex.is_block_id_char ident = true ->
  SpecRegex.block_link_from i (pre +:+ String " " (String "^" ident))
  = Some ((i + String.length pre)%nat, String " " (String "^" ident)).
Proof.
  intros Hne Hall. revert i. induction pre as [|c pre IH]; intros i.
  - change ("" +:+ String " " (String "^" ident)) with (String " " (String "^" ident)).
    unfold SpecRegex.block_link_from.
    rewrite (block_link_here_token ident Hne Hall). simpl. now rewrite Nat.add_0_r.
  - change (String c pre +:+ String " " (String "^" ident))
      with (String c (pre +:+ String " " (String "^" ident))).
    cbn [SpecRegex.block_link_from]. rewrite block_link_here_before.
    rewrite IH. simpl. f_equal. f_equal. lia.
Qed.

Lemma SpecRegex_block_link_suffix (pre ident : string) :
  ident <> ""%string ->
  SpecRegex.all_chars SpecRegex.is_block_id_char ident = true ->
  blockLinkRegex SpecRegex.TaskRegularExpressions (pre +:+ String " " (String "^" ident))
  = Some (String.length pre, String " " (String "^" ident)).
Proof. intros Hne Hall. exact (block_link_from_suffix 0 pre ident Hne Hall). Qed.




(** ** Frame of the line parser *)

Lemma with_tags_same a : with_tags a (arg_tags a) = a.
Proof. now destruct a. Qed.

(** C5 (amended). [fromLine] leaves its parent link, position, out-links
    and front matter unchanged, and only appends to the supplied tags list:
    when it returns a record it has appended the tags the front matter
    declares, and when the line is not a task or the front matter declares
    no tags the list is unchanged too.  Its result is determined by the line,
    the path and these arguments. *)
Theorem fromLine_frame :
  forall rx ln filePath a,
    let r := fst (fromLine rx ln filePath a) in
    let a' := snd (fromLine rx ln filePath a) in
    with_tags a' (arg_tags a) = a
    /\ arg_frontMatter a' = arg_frontMatter a
    /\ (exists pushed, arg_tags a' = arg_tags a ++ pushed)
    /\ (forall t, r = Normal (Some t) ->
                  arg_tags a' = arg_tags a ++ declared_tags (arg_frontMatter a))
    /\ (taskRegex rx ln = None \/ declared_tags (arg_frontMatter a) = [] -> a' = a)
    /\ (forall b,
          arg_parent b = arg_parent a -> arg_position b = arg_position a ->
          arg_outLinks b = arg_outLinks a -> arg_tags b = arg_tags a ->
          arg_frontMatter b = arg_frontMatter a ->
          fromLine rx ln filePath b = fromLine rx ln filePath a).
Proof.
  intros rx ln filePath a.
  assert (Hdet : forall b,
             arg_parent b = arg_parent a -> arg_position b = arg_position a ->
             arg_outLinks b = arg_outLinks a -> arg_tags b = arg_tags a ->
             arg_frontMatter b = arg_frontMatter a ->
             fromLine rx ln filePath b = fromLine rx ln filePath a).
  { intros [] H1 H2 H3 H4 H5. destruct a. simpl in *. now subst. }
  cut (let r := fst (fromLine rx ln filePath a) in
       let a' := snd (fromLine rx ln filePath a) in
       with_tags a' (arg_tags a) = a
       /\ arg_frontMatter a' = arg_frontMatter a
       /\ (exists pushed, arg_tags a' = arg_tags a ++ pushed)
       /\ (forall t, r = Normal (Some t) ->
                     arg_tags a' = arg_tags a ++ declared_tags (arg_frontMatter a))
       /\ (taskRegex rx ln = None \/ declared_tags (arg_frontMatter a) = [] -> a' = a)).
  { simpl. intros (H1 & H2 & H3 & H4 & H5). repeat split; assumption. }
  clear Hdet. unfold fromLine.
  destruct (taskRegex rx ln) as [[[[g1 g2] g3] g4]|]; simpl.
  2:{ repeat split; try apply with_tags_same.
      - exists []. now rewrite app_nil_r.
      - discriminate. }
  destruct a as [pa po ol tg [fm|]]; simpl.
  2:{ repeat split.
      - exists []. now rewrite app_nil_r.
      - intros t _. now rewrite app_nil_r. }
  unfold push_tags, push_tag.
  destruct (fm !! "tag"%string) as [[s|l1| |]|];
    destruct (fm !! "tags"%string) as [[s'|l2| |]|]; simpl;
    try destruct (String.eqb s ""); simpl;
    unfold with_tags; simpl;
    repeat split;
    try (eexists; rewrite <- ?app_assoc; reflexivity);
    try (exists []; now rewrite app_nil_r);
    try discriminate;
    try (intros t _; now rewrite <- ?app_assoc, ?app_nil_r);
    try (intros [H|H]; [discriminate H|]; try discriminate H;
         try (simpl in H; subst; now rewrite ?app_nil_r)).
Qed.

(** C5 (as stated) fails: with front matter [tag: #b] the caller's tags
    list [#a] has become [#a, #b] when the call returns. *)
Lemma fromLine_mutates_tags :
  ~ (snd (fromLine SpecRegex.TaskRegularExpressions "- [ ] buy milk" "a.md"
            {| arg_parent := "a.md"%string;
               arg_position := {| pos_start := origin; pos_end := origin |};
               arg_outLinks := [];
               arg_tags := ["#a"%string];
               arg_frontMatter := Some {[ "tag"%string := FmString "#b" ]} |})
     = {| arg_parent := "a.md"%string;
          arg_position := {| pos_start := origin; pos_end := origin |};
          arg_outLinks := [];
          arg_tags := ["#a"%string];
          arg_frontMatter := Some {[ "tag"%string := FmString "#b" ]} |}).
Proof.
  intros H. apply (f_equal arg_tags) in H. vm_compute in H. discriminate H.
Qed.

(** C9. The line [- [ ] buy milk #todo] without front matter yields a
    record with status marker [' '], visual text [buy milk #todo], checked,
    not completed and not fully completed.  In general a record is checked
    exactly when its description with the first space removed is not empty,
    and fully completed exactly when its marker is not [' ']. *)
Theorem fromLine_buy_milk :
  forall (parent : Link) (position : Pos) (outLinks : list Link) (tags0 : list string),
    let a := {| arg_parent := parent; arg_position := position; arg_outLinks := outLinks;
                arg_tags := tags0; arg_frontMatter := None |} in
    (exists t,
        fromLine SpecRegex.TaskRegularExpressions "- [ ] buy milk #todo" "a.md" a
        = (Normal (Some t), a)
        /\ statusMarker t = " "%string
        /\ visual t = Some "buy milk #todo"%string
        /\ checked t = true
        /\ completed t = false
        /\ fullyCompleted t = false)
    /\ (forall rx ln filePath b t,
          fst (fromLine rx ln filePath b) = Normal (Some t) ->
          exists description,
            visual t = Some description
            /\ checked t
               = negb (String.length (JsString.remove_first " "%char description) =? 0)%nat
            /\ fullyCompleted t = negb (String.eqb (statusMarker t) " ")).
Proof.
  intros parent position outLinks tags0 a. split.
  - eexists. split; [reflexivity|]. repeat split; reflexivity.
  - intros rx ln filePath b t E.
    destruct (fromLine_returns rx ln filePath b t E)
      as (g1 & g2 & g3 & g4 & _ & _ & Hsm & _ & _ & _ & Hvis & Hchk & _ & Hfc & _).
    exists (description_of rx g4). split; [exact Hvis|].
    rewrite (remove_first_space_clean _ (description_clean rx g4)), Hsm.
    split; [exact Hchk|exact Hfc].
Qed.

(** ** The filter chain *)

Section FilterChain.

Import Options.

Variable TaskStatusMarkerMap : string -> option string.

(** A chain that passes fewer tasks keeps a sublist. *)
Lemma getTasks_sublist modifiers (fs' fs : list TaskFilter) items :
  (forall t, forallb (fun filter => filter t) fs' = true ->
             forallb (fun filter => filter t) fs = true) ->
  getTasks modifiers fs' items `sublist_of` getTasks modifiers fs items.
Proof.
  intros Himp. induction items as [|[t|] items IH]; simpl.
  - constructor.
  - destruct (applyModifiers modifiers t) as [u|]; [|exact IH].
    destruct (forallb (fun filter => filter u) fs') eqn:E'.
    + rewrite (Himp u E'). now apply sublist_skip.
    + destruct (forallb (fun filter => filter u) fs); [now apply sublist_cons|exact IH].
  - exact IH.
Qed.

Lemma existsb_app_middle {A} (f : A -> bool) l1 x l2 :
  existsb f (l1 ++ l2) = true -> existsb f (l1 ++ x :: l2) = true.
Proof.
  rewrite !existsb_app. simpl. rewrite !orb_true_iff. tauto.
Qed.

Lemma statusFilter_monotone o l1 marker l2 t :
  statusFilter TaskStatusMarkerMap (with_hideStatusTasks (l1 ++ marker :: l2) o) t = true ->
  statusFilter TaskStatusMarkerMap (with_hideStatusTasks (l1 ++ l2) o) t = true.
Proof.
  unfold statusFilter. simpl.
  destruct (length (l1 ++ l2) =? 0)%nat; [reflexivity|].
  destruct (length (l1 ++ marker :: l2) =? 0)%nat eqn:E.
  { apply Nat.eqb_eq in E. rewrite length_app in E. simpl in E. lia. }
  destruct (existsb (String.eqb (statusMarker t)) (l1 ++ l2)) eqn:E1.
  { now rewrite (existsb_app_middle _ _ marker _ E1). }
  destruct (existsb (String.eqb (statusMarker t)) (l1 ++ marker :: l2)); [discriminate|].
  match goal with |- negb ?a = true -> negb ?b = true => destruct b eqn:E2 end;
    [|reflexivity].
  now rewrite (existsb_app_middle _ _ marker _ E2).
Qed.

Lemma passes_with_hideStatusTasks o l1 marker l2 t :
  passes TaskStatusMarkerMap (with_hideStatusTasks (l1 ++ marker :: l2) o) t = true ->
  passes TaskStatusMarkerMap (with_hideStatusTasks (l1 ++ l2) o) t = true.
Proof.
  unfold passes, getFilters. simpl. rewrite !andb_true_iff.
  intros (H1 & H2 & H3 & H4 & _).
  repeat split; try assumption.
  now apply statusFilter_monotone in H1.
Qed.

Lemma passes_with_useIncludeTags o t :
  passes TaskStatusMarkerMap (with_useIncludeTags true o) t = true ->
  passes TaskStatusMarkerMap (with_useIncludeTags false o) t = true.
Proof.
  unfold passes, getFilters. simpl. rewrite !andb_true_iff.
  intros (H1 & H2 & H3 & H4 & _). repeat split; assumption.
Qed.

Lemma passes_with_useExcludeTags o t :
  passes TaskStatusMarkerMap (with_useExcludeTags true o) t = true ->
  passes TaskStatusMarkerMap (with_useExcludeTags false o) t = true.
Proof.
  unfold passes, getFilters. simpl. rewrite !andb_true_iff.
  intros (H1 & H2 & H3 & H4 & _). repeat split; assumption.
Qed.

Lemma passes_with_filterEmpty o t :
  passes TaskStatusMarkerMap (with_filterEmpty true o) t = true ->
  passes TaskStatusMarkerMap (with_filterEmpty false o) t = true.
Proof.
  unfold passes, getFilters. simpl. rewrite !andb_true_iff.
  intros (H1 & H2 & H3 & H4 & _). repeat split; assumption.
Qed.

(** C6. The filter chain is monotonic: with the tasks, the modifiers and
    all other options fixed, enabling tag inclusion, enabling tag
    exclusion, enabling empty filtering, or adding a marker to the hidden
    statuses keeps a sublist of (hence no more than) the tasks kept
    without it. *)
Theorem filters_monotonic :
  forall (o : UserOptions) (modifiers : list TaskModifier)
         (items : list (option TaskDataModel)),
    kept TaskStatusMarkerMap (with_useIncludeTags true o) modifiers items
      `sublist_of` kept TaskStatusMarkerMap (with_useIncludeTags false o) modifiers items
    /\ kept TaskStatusMarkerMap (with_useExcludeTags true o) modifiers items
         `sublist_of` kept TaskStatusMarkerMap (with_useExcludeTags false o) modifiers items
    /\ kept TaskStatusMarkerMap (with_filterEmpty true o) modifiers items
         `sublist_of` kept TaskStatusMarkerMap (with_filterEmpty false o) modifiers items
    /\ (forall l1 marker l2,
          kept TaskStatusMarkerMap (with_hideStatusTasks (l1 ++ marker :: l2) o) modifiers items
            `sublist_of` kept TaskStatusMarkerMap (with_hideStatusTasks (l1 ++ l2) o) modifiers items)
    /\ (forall l1 marker l2,
          (length (kept TaskStatusMarkerMap (with_hideStatusTasks (l1 ++ marker :: l2) o) modifiers items)
           <= length (kept TaskStatusMarkerMap (with_hideStatusTasks (l1 ++ l2) o) modifiers items))%nat).
Proof.
  intros o modifiers items. unfold kept.
  split; [apply getTasks_sublist, passes_with_useIncludeTags|].
  split; [apply getTasks_sublist, passes_with_useExcludeTags|].
  split; [apply getTasks_sublist, passes_with_filterEmpty|].
  split; intros l1 marker l2.
  - apply getTasks_sublist, passes_with_hideStatusTasks.
  - apply sublist_length, getTasks_sublist, passes_with_hideStatusTasks.
Qed.

End FilterChain.

(** ** Comparator validation *)

Section Validation.

Import Options.

(** C3 (amended). When the user-supplied comparator fails validation on
    the probe, the comparator installed after configuration is the one
    that was installed before - the default ascending comparator on
    freshly made options - and a warning is logged; a comparator that
    passes the probe is installed as given, without a warning. *)
Lemma TaskOptions_set_fails eval settings this :
  validates (eval (sort (UserOptions_set settings (user this)))) = false ->
  sortFunction (fst (TaskOptions_set eval settings this)) = sortFunction this
  /\ snd (TaskOptions_set eval settings this) = [SortingLambdaInvalid].
Proof.
  unfold validates, TaskOptions_set.
  destruct (eval _) as [f|]; [|split; reflexivity].
  destruct (probe f) as [test|]; [|split; reflexivity].
  destruct (number_gt test (Num 0)); [discriminate|split; reflexivity].
Qed.

Theorem TaskOptions_set_validation :
  forall (eval : string -> Completion SortFunction) (settings : PartialUserOption)
         (this : TaskOptions),
    let evaluated := eval (sort (UserOptions_set settings (user this))) in
    let r := TaskOptions_set eval settings this in
    (validates evaluated = false ->
     sortFunction (fst r) = sortFunction this /\ snd r = [SortingLambdaInvalid])
    /\ (validates (eval (sort (UserOptions_set settings (user new_TaskOptions)))) = false ->
        sortFunction (fst (TaskOptions_set eval settings new_TaskOptions))
        = (fun a b => Normal (defaultSort a b)))
    /\ (forall f, evaluated = Normal f -> validates evaluated = true ->
                  sortFunction (fst r) = f /\ snd r = []).
Proof.
  intros eval settings this evaluated r.
  split; [apply TaskOptions_set_fails|]. split.
  - intros Hv. now destruct (TaskOptions_set_fails eval settings new_TaskOptions Hv).
  - intros f Hf. subst r. unfold validates, TaskOptions_set. fold evaluated. rewrite Hf.
    destruct (probe f) as [test|]; [|discriminate].
    destruct (number_gt test (Num 0)); [split; reflexivity|discriminate].
Qed.

(** C3 (as stated) fails: after a comparator by difference was installed,
    configuring a source that does not evaluate logs the warning and
    leaves the comparator by difference installed, which answers 0 on
    equal keys where the default comparator answers -1. *)
Lemma TaskOptions_set_keeps_previous :
  ~ (forall a b,
       sortFunction
         (fst (TaskOptions_set evalDifference (setSort "t1 <")
                 (fst (TaskOptions_set evalDifference
                         (setSort "(t1, t2) => t1.order - t2.order") new_TaskOptions))))
         a b
       = Normal (defaultSort a b)).
Proof.
  intros H.
  specialize (H {| st_order := Some (Num 1) |} {| st_order := Some (Num 1) |}).
  vm_compute in H. discriminate H.
Qed.

End Validation.

(** ** The task table *)

Section TaskTable.

Import Adapter.

Lemma mergeTasks_same_path (t1 t2 : TaskDataModel) (tbl : gmap string TaskDataModel) :
  path t1 = path t2 ->
  mergeTasks [t1; t2] tbl = <[path t2 := t2]> tbl.
Proof.
  intros E. unfold mergeTasks. simpl. rewrite E. apply insert_insert_eq.
Qed.

(** C1 (the code at the failing input). Two tasks of one document, on
    lines 0 and 1, are both returned by the refresh, and the table then
    holds a single entry, under the document path, for the second one: the
    first was overwritten. *)
Theorem setTasks_same_document_overwrites :
  exists t1 t2,
    firstTask = Normal (Some t1)
    /\ secondTask = Normal (Some t2)
    /\ path t1 = path t2
    /\ position t1 <> position t2
    /\ fst (fst (setTasks [fulfilled (Some [t1; t2])] ∅)) = [t1; t2]
    /\ snd (setTasks [fulfilled (Some [t1; t2])] ∅) = {[ "a.md"%string := t2 ]}
    /\ size (snd (setTasks [fulfilled (Some [t1; t2])] ∅)) = 1%nat
    /\ (forall key, snd (setTasks [fulfilled (Some [t1; t2])] ∅) !! key <> Some t1).
Proof.
  eexists. eexists.
  split; [reflexivity|]. split; [reflexivity|].
  split; [reflexivity|]. split; [discriminate|].
  split; [reflexivity|].
  assert (E : forall t1 t2 : TaskDataModel,
             path t1 = "a.md"%string -> path t2 = "a.md"%string ->
             snd (setTasks [fulfilled (Some [t1; t2])] ∅) = {[ "a.md"%string := t2 ]}).
  { intros t1 t2 H1 H2. unfold setTasks. simpl.
    change (mergeTasks [t1; t2] ∅ = {[ "a.md"%string := t2 ]}).
    rewrite mergeTasks_same_path by congruence. now rewrite H2, insert_empty. }
  rewrite E by reflexivity.
  split; [reflexivity|]. split; [apply map_size_singleton|].
  intros key. destruct (decide (key = "a.md"%string)) as [->|Hne].
  - rewrite lookup_singleton_eq. intros H. discriminate H.
  - now rewrite lookup_singleton_ne.
Qed.

End TaskTable.

(** ** The pending-resolution registry *)

Section Registry.

Import Cache.

(** When a resolution completes, the entry leaves the item queue. *)
Lemma resume_unregisters_item this p o w :
  internalListQueue (getTaskDataModel_resume this p o w) !! id this = None.
Proof. simpl. apply lookup_delete_eq. Qed.

(** It touches the file queue only under its own identity. *)
Lemma resume_file_queue_other this p o w key :
  key <> id this ->
  internalFileQueue (getTaskDataModel_resume this p o w) !! key = internalFileQueue w !! key.
Proof.
  intros Hne. simpl. unfold array_remove, ensure.
  rewrite lookup_insert_ne by congruence.
  destruct (internalFileQueue w !! id this); [reflexivity|].
  now rewrite lookup_insert_ne by congruence.
Qed.

(** C2 (the code at the failing input). Whatever the outcome of resolving
    the root item of [a.md], afterwards the item has left the item queue,
    but the document is still listed under its path in the file queue, and
    an empty list was filed under the item's identity instead. *)
Theorem remove_leaves_document_registered :
  forall o : Outcome,
    let started := task rootItem emptyWorld in
    let w := getTaskDataModel_resume rootItem (fst started) o (snd started) in
    id rootItem = "a.md-1"%string
    /\ internalFileQueue (snd started) !! "a.md"%string = Some [fc_ref document]
    /\ internalListQueue (snd started) !! "a.md-1"%string = Some (this_ref rootItem)
    /\ internalListQueue w !! "a.md-1"%string = None
    /\ internalFileQueue w !! "a.md"%string = Some [fc_ref document]
    /\ internalFileQueue w !! "a.md-1"%string = Some [].
Proof.
  intros o started w.
  split; [reflexivity|]. split; [reflexivity|]. split; [reflexivity|].
  split; [apply resume_unregisters_item|].
  split.
  - subst w. rewrite resume_file_queue_other by discriminate. reflexivity.
  - subst w. destruct o; reflexivity.
Qed.

(** ** Memoized resolution *)

Lemma task_started this w p :
  _asyncTaskData w !! this_ref this = Some p -> task this w = (p, w).
Proof. intros H. unfold task. now rewrite H. Qed.

Lemma task_fresh this w :
  _asyncTaskData w !! this_ref this = None ->
  fst (task this w) = length (promises w)
  /\ _asyncTaskData (snd (task this w))
     = <[this_ref this := length (promises w)]> (_asyncTaskData w)
  /\ parses (snd (task this w)) = parses w ++ [this_ref this].
Proof. intros H. unfold task. rewrite H. simpl. repeat split. Qed.

Lemma parse_count_app r l w w' :
  parses w' = parses w ++ l ->
  parse_count r w' = (parse_count r w + count_occ Nat.eq_dec l r)%nat.
Proof. intros H. unfold parse_count. rewrite H. apply count_occ_app. Qed.

(** Once the resolution of [r] is memoized, every later access of [r]
    answers it, and no event starts its parse again. *)
Lemma run_started evs : forall w r p,
  _asyncTaskData w !! r = Some p ->
  (forall q, In (r, q) (fst (run evs w)) -> q = p)
  /\ parse_count r (snd (run evs w)) = parse_count r w
  /\ _asyncTaskData (snd (run evs w)) !! r = Some p.
Proof.
  induction evs as [|[it|it p' o] evs IH]; intros w r p Hr; simpl.
  - repeat split; [intros q []|exact Hr].
  - destruct (task it w) as [p1 w1] eqn:Et.
    destruct (run evs w1) as [answers w2] eqn:Er. simpl.
    assert (Hw1 : _asyncTaskData w1 !! r = Some p /\ parse_count r w1 = parse_count r w
                  /\ (this_ref it = r -> p1 = p)).
    { destruct (_asyncTaskData w !! this_ref it) as [p0|] eqn:Ei.
      - rewrite (task_started it w p0 Ei) in Et. injection Et as <- <-.
        repeat split; [exact Hr|]. intros <-. congruence.
      - destruct (task_fresh it w Ei) as (_ & Ha & Hp).
        rewrite Et in Ha, Hp. simpl in Ha, Hp.
        assert (Hne : this_ref it <> r) by congruence.
        repeat split.
        + rewrite Ha. now rewrite lookup_insert_ne.
        + rewrite (parse_count_app r [this_ref it] w w1 Hp). simpl.
          destruct (Nat.eq_dec (this_ref it) r); [contradiction|lia].
        + intros E. contradiction. }
    destruct Hw1 as (Ha1 & Hc1 & Hp1).
    specialize (IH w1 r p Ha1). rewrite Er in IH. simpl in IH.
    destruct IH as (IHa & IHc & IHd).
    repeat split; [|congruence|exact IHd].
    intros q [Hq|Hq]; [|now apply IHa].
    injection Hq as Hi <-. now apply Hp1.
  - apply (IH (getTaskDataModel_resume it p' o w) r p). exact Hr.
Qed.

(** Before that, the first access of [r] starts its parse, once. *)
Lemma run_fresh evs : forall w r,
  _asyncTaskData w !! r = None ->
  (exists p, forall q, In (r, q) (fst (run evs w)) -> q = p)
  /\ ((exists it, In (Access it) evs /\ this_ref it = r) ->
      parse_count r (snd (run evs w)) = S (parse_count r w))
  /\ ((forall it, In (Access it) evs -> this_ref it <> r) ->
      parse_count r (snd (run evs w)) = parse_count r w).
Proof.
  induction evs as [|[it|it p' o] evs IH]; intros w r Hr; simpl.
  - repeat split; [exists 0%nat; intros q []|intros (it & [] & _)].
  - destruct (task it w) as [p1 w1] eqn:Et.
    destruct (run evs w1) as [answers w2] eqn:Er. simpl.
    destruct (decide (this_ref it = r)) as [Heq|Hne].
    + subst r. destruct (task_fresh it w Hr) as (Hp1 & Ha & Hp).
      rewrite Et in Hp1, Ha, Hp. simpl in Hp1, Ha, Hp.
      assert (Ha1 : _asyncTaskData w1 !! this_ref it = Some p1).
      { rewrite Ha, Hp1. apply lookup_insert_eq. }
      pose proof (run_started evs w1 (this_ref it) p1 Ha1) as Hs.
      rewrite Er in Hs. simpl in Hs. destruct Hs as (Hs1 & Hs2 & _).
      assert (Hc : parse_count (this_ref it) w1 = S (parse_count (this_ref it) w)).
      { rewrite (parse_count_app _ [this_ref it] w w1 Hp). simpl.
        destruct (Nat.eq_dec (this_ref it) (this_ref it)); [lia|contradiction]. }
      repeat split.
      * exists p1. intros q [Hq|Hq]; [congruence|now apply Hs1].
      * intros _. congruence.
      * intros Hno. now destruct (Hno it (or_introl eq_refl)).
    + assert (Hw1 : _asyncTaskData w1 !! r = None /\ parse_count r w1 = parse_count r w).
      { destruct (_asyncTaskData w !! this_ref it) as [p0|] eqn:Ei.
        - rewrite (task_started it w p0 Ei) in Et. injection Et as <- <-. now split.
        - destruct (task_fresh it w Ei) as (_ & Ha & Hp).
          rewrite Et in Ha, Hp. simpl in Ha, Hp. split.
          + rewrite Ha. now rewrite lookup_insert_ne.
          + rewrite (parse_count_app r [this_ref it] w w1 Hp). simpl.
            destruct (Nat.eq_dec (this_ref it) r); [contradiction|lia]. }
      destruct Hw1 as (Ha1 & Hc1).
      specialize (IH w1 r Ha1). rewrite Er in IH. simpl in IH.
      destruct IH as ((p & IHa) & IHc & IHn).
      repeat split.
      * exists p. intros q [Hq|Hq]; [congruence|now apply IHa].
      * intros (it' & [Hi|Hi] & E); [congruence|].
        rewrite <- Hc1. apply IHc. now exists it'.
      * intros Hno. rewrite <- Hc1. apply IHn. intros it' Hi. apply Hno. now right.
  - specialize (IH (getTaskDataModel_resume it p' o w) r Hr).
    destruct IH as (IHa & IHc & IHn).
    repeat split.
    + exact IHa.
    + intros (it' & [Hi|Hi] & E); [discriminate Hi|]. apply IHc. now exists it'.
    + intros Hno. apply IHn. intros it' Hi. apply Hno. now right.
Qed.

Lemma access_decided evs r :
  (exists it, In (Access it) evs /\ this_ref it = r)
  \/ (forall it, In (Access it) evs -> this_ref it <> r).
Proof.
  induction evs as [|[it|it p o] evs [(it' & Hi & E)|IH]].
  - right. intros it [].
  - left. exists it'. split; [now right|exact E].
  - destruct (decide (this_ref it = r)) as [E|Hne].
    + left. exists it. split; [now left|exact E].
    + right. intros it' [Hi|Hi]; [congruence|now apply IH].
  - left. exists it'. split; [now right|exact E].
  - right. intros it' [Hi|Hi]; [discriminate Hi|now apply IH].
Qed.

(** C7. The parse of an item cache entry is started at most once: over
    any sequence of accesses and completions, on this and on other
    entries, every access of the entry answers the same memoized
    resolution, all requesters observe the same settlement, the first
    access of a fresh entry starts the parse, and no later event starts
    it again. *)
Theorem task_memoized :
  forall (evs : list Event) (w : World) (r : ItemRef),
    let answers := fst (run evs w) in
    let w' := snd (run evs w) in
    (exists p, forall q, In (r, q) answers -> q = p /\ observe q w' = observe p w')
    /\ (parse_count r w' <= S (parse_count r w))%nat
    /\ (resolved r w = true -> parse_count r w' = parse_count r w)
    /\ (resolved r w = false ->
        (exists it, In (Access it) evs /\ this_ref it = r) ->
        parse_count r w' = S (parse_count r w)).
Proof.
  intros evs w r answers w'. subst answers w'. unfold resolved.
  destruct (_asyncTaskData w !! r) as [p|] eqn:Hr.
  - destruct (run_started evs w r p Hr) as (Ha & Hc & _).
    repeat split.
    + exists p. intros q Hq. rewrite (Ha q Hq). now split.
    + lia.
    + intros _. exact Hc.
    + intros H. rewrite bool_decide_eq_false in H. destruct H. now exists p.
  - destruct (run_fresh evs w r Hr) as ((p & Ha) & Hc & Hn).
    repeat split.
    + exists p. intros q Hq. rewrite (Ha q Hq). now split.
    + destruct (access_decided evs r) as [Hyes|Hno].
      * rewrite (Hc Hyes). lia.
      * rewrite (Hn Hno). lia.
    + intros H. rewrite bool_decide_eq_true in H. destruct H as [x Hx]. discriminate Hx.
    + intros _ Hyes. exact (Hc Hyes).
Qed.

End Registry.

(** * Further properties of the code *)

(** ** Paths *)

Lemma existsb_eqb_In (x : string) (l : list string) :
  existsb (String.eqb x) l = true <-> In x l.
Proof.
  rewrite existsb_exists. split.
  - intros (y & Hy & E). apply String.eqb_eq in E. now subst.
  - intros H. exists x. split; [exact H|apply String.eqb_refl].
Qed.

Lemma append_cons c (s t : string) : String c s +:+ t = String c (s +:+ t).
Proof. reflexivity. Qed.

Lemma append_nil (t : string) : "" +:+ t = t.
Proof. reflexivity. Qed.

Lemma split_app_sep sep (p q : string) :
  JsString.split sep (p +:+ String sep q) = JsString.split sep p ++ JsString.split sep q.
Proof.
  induction p as [|c p IH].
  - rewrite append_nil. simpl. now rewrite Ascii.eqb_refl.
  - rewrite append_cons. simpl. rewrite IH.
    destruct (Ascii.eqb c sep); [reflexivity|].
    destruct (JsString.split sep p) as [|h t] eqn:E; [|reflexivity].
    now destruct (split_not_nil sep p).
Qed.

Lemma join_cons x y l : join (x :: y :: l) = x +:+ String slash (join (y :: l)).
Proof. reflexivity. Qed.

Lemma join_split s : join (JsString.split slash s) = s.
Proof.
  induction s as [|c s IH]; [reflexivity|]. simpl.
  destruct (JsString.split slash s) as [|h t] eqn:E.
  { now destruct (split_not_nil slash s). }
  destruct (Ascii.eqb_spec c slash) as [->|_].
  - rewrite join_cons, IH. reflexivity.
  - destruct t as [|y t].
    + simpl in *. now rewrite IH.
    + rewrite join_cons, append_cons. rewrite join_cons in IH. now rewrite IH.
Qed.

Lemma join_app l k :
  l <> [] -> k <> [] -> join (l ++ k) = join l +:+ String slash (join k).
Proof.
  intros Hl Hk. induction l as [|x l IH]; [contradiction|].
  destruct l as [|y l].
  - destruct k as [|z k]; [contradiction|]. reflexivity.
  - change ((x :: y :: l) ++ k) with (x :: ((y :: l) ++ k)).
    assert (E : exists z r, (y :: l) ++ k = z :: r) by (simpl; eauto).
    destruct E as (z & r & E). rewrite E, join_cons, <- E, IH by discriminate.
    rewrite join_cons. clear. generalize (join (y :: l)) (join k). intros a b.
    induction x as [|c x IHx]; [reflexivity|].
    rewrite !append_cons. now rewrite IHx.
Qed.

Lemma segments_inj a b : segments a = segments b -> a = b.
Proof.
  unfold segments. intros E. rewrite <- (join_split a), <- (join_split b). now rewrite E.
Qed.

Lemma leading_segments_inside parent rest :
  leading_segments parent (parent +:+ String slash rest).
Proof.
  unfold leading_segments. apply lookup_agree_prefix.
  unfold segments. rewrite split_app_sep. now apply prefix_app_r.
Qed.

(** X1. [isParent] in terms of the texts: a path is under a prefix exactly
    when it is the prefix itself or the prefix followed by '/' and more. *)
Theorem isParent_textual :
  forall parent path : string,
    isParent parent path = true <->
    path = parent \/ exists rest, path = parent +:+ String slash rest.
Proof.
  intros parent path. rewrite isParent_leading_segments. split.
  - intros H. apply lookup_agree_prefix in H. destruct H as [m Hm].
    destruct m as [|x m].
    + left. rewrite app_nil_r in Hm. symmetry. now apply segments_inj.
    + right. exists (join (x :: m)).
      rewrite <- (join_split path). fold (segments path). rewrite Hm.
      rewrite join_app; [|apply split_not_nil|discriminate].
      unfold segments. now rewrite join_split.
  - intros [->|[rest ->]].
    + intros i v Hi. exact Hi.
    + apply leading_segments_inside.
Qed.

(** X2. [isParent] orders paths: every path is under itself, being under
    is transitive, and two paths under each other are equal. *)
Theorem isParent_partial_order :
  (forall p, isParent p p = true)
  /\ (forall p q r, isParent p q = true -> isParent q r = true -> isParent p r = true)
  /\ (forall p q, isParent p q = true -> isParent q p = true -> p = q).
Proof.
  split; [|split].
  - intros p. apply isParent_leading_segments. intros i v Hi. exact Hi.
  - intros p q r Hpq Hqr. apply isParent_leading_segments.
    apply isParent_leading_segments in Hpq, Hqr.
    intros i v Hi. apply Hqr, Hpq, Hi.
  - intros p q Hpq Hqp.
    apply isParent_leading_segments, lookup_agree_prefix in Hpq.
    apply isParent_leading_segments, lookup_agree_prefix in Hqp.
    apply segments_inj.
    destruct Hpq as [m Hm]. destruct Hqp as [n Hn].
    assert (Hlen : length (segments q) = (length (segments p) + length m)%nat)
      by (rewrite Hm; apply length_app).
    assert (Hlen' : length (segments p) = (length (segments q) + length n)%nat)
      by (rewrite Hn at 1; apply length_app).
    destruct m as [|x m]; [now rewrite Hm, app_nil_r|simpl in Hlen; lia].
Qed.

(** X3. [pathsExcludeFilter] keeps a document exactly when no exclude
    prefix has it under it; for a non-empty list it is the negation of
    [pathsIncludeFile] on the same list. *)
Theorem pathsExcludeFilter_complement :
  forall (filter : list string) (file : TFile),
    (pathsExcludeFilter filter file = true <->
     forall excludePath, In excludePath filter ->
                         ~ leading_segments excludePath (tf_path file))
    /\ (filter <> [] ->
        pathsExcludeFilter filter file = negb (pathsIncludeFile filter file)).
Proof.
  intros filter file. unfold pathsExcludeFilter, pathsIncludeFile. split.
  - rewrite orb_true_iff, forallb_forall. split.
    + intros [H|H] x Hx.
      * destruct filter; [destruct Hx|discriminate H].
      * specialize (H x Hx). apply negb_true_iff in H.
        intros Hl. apply isParent_leading_segments in Hl. congruence.
    + intros H. right. intros x Hx. apply negb_true_iff.
      destruct (isParent x (tf_path file)) eqn:E; [|reflexivity].
      apply isParent_leading_segments in E. now destruct (H x Hx).
  - intros Hne. destruct filter as [|x filter]; [contradiction|].
    cbn [length Nat.eqb orb].
    generalize (x :: filter). intros l.
    induction l as [|y l IH]; [reflexivity|].
    simpl. rewrite IH. now destruct (isParent y (tf_path file)).
Qed.

(** ** Document selection *)

Section Scheduling.

Import Cache Scan.

Variable getFileCache : TFile -> option CachedMetadata.

(** X4. The document tag filters keep every document without metadata or
    without tags, whatever the lists.  A document with tags passes the
    include filter exactly when the list is empty or shares a tag with it,
    and the exclude filter exactly when the list shares no tag with it. *)
Theorem file_tag_filters :
  forall (filter : list string) (file : TFile),
    ((getFileCache file = None
      \/ exists cache, getFileCache file = Some cache /\ cm_tags cache = None) ->
     fileIncludeTagsFilter getFileCache filter file = true
     /\ fileExcludeTagsFilter getFileCache filter file = true)
    /\ (forall cache tagCaches,
          getFileCache file = Some cache -> cm_tags cache = Some tagCaches ->
          (fileIncludeTagsFilter getFileCache filter file = true <->
           filter = [] \/ exists tag, In tag filter /\ In tag (map tc_tag tagCaches))
          /\ (fileExcludeTagsFilter getFileCache filter file = true <->
              forall tag, In tag filter -> ~ In tag (map tc_tag tagCaches))).
Proof.
  intros filter file. unfold fileIncludeTagsFilter, fileExcludeTagsFilter. split.
  - intros [->|(cache & -> & ->)]; [now split|].
    destruct (length filter =? 0)%nat; now split.
  - intros cache tagCaches -> ->. destruct filter as [|x filter].
    + simpl. split; [split; [now left|reflexivity]|].
      split; [intros _ tag []|reflexivity].
    + cbn [length Nat.eqb]. split.
      * rewrite existsb_exists. split.
        -- intros (tag & Hin & E). right. exists tag. split; [exact Hin|].
           now apply existsb_eqb_In.
        -- intros [H|(tag & Hin & E)]; [discriminate H|].
           exists tag. split; [exact Hin|]. now apply existsb_eqb_In.
      * rewrite forallb_forall. split.
        -- intros H tag Hin Htag. specialize (H tag Hin).
           apply negb_true_iff in H. apply existsb_eqb_In in Htag. congruence.
        -- intros H tag Hin. apply negb_true_iff.
           destruct (existsb (String.eqb tag) (map tc_tag tagCaches)) eqn:E; [|reflexivity].
           apply existsb_eqb_In in E. now destruct (H tag Hin).
Qed.

Lemma in_flight_ensure key key' q : in_flight key' (ensure key q) = in_flight key' q.
Proof.
  unfold in_flight, ensure. destruct (q !! key) eqn:E; [reflexivity|].
  destruct (decide (key = key')) as [<-|Hne].
  - now rewrite lookup_insert_eq, E.
  - now rewrite lookup_insert_ne.
Qed.

Lemma newFiles_selected files : forall q,
  fst (newFiles files q)
  = List.filter (fun file => (length (in_flight (tf_path file) q) =? 0)%nat) files.
Proof.
  induction files as [|file files IH]; intros q; [reflexivity|].
  simpl. specialize (IH (ensure (tf_path file) q)).
  destruct (newFiles files (ensure (tf_path file) q)) as [kept_rest q2]. simpl in *.
  fold (in_flight (tf_path file) (ensure (tf_path file) q)).
  rewrite in_flight_ensure, IH.
  assert (E : List.filter
                (fun f => (length (in_flight (tf_path f) (ensure (tf_path file) q)) =? 0)%nat)
                files
              = List.filter (fun f => (length (in_flight (tf_path f) q) =? 0)%nat) files).
  { apply filter_ext. intros f. now rewrite in_flight_ensure. }
  rewrite E. now destruct (length (in_flight (tf_path file) q) =? 0)%nat.
Qed.

Lemma newFiles_in_flight files : forall q key,
  in_flight key (snd (newFiles files q)) = in_flight key q.
Proof.
  induction files as [|file files IH]; intros q key; [reflexivity|].
  simpl. specialize (IH (ensure (tf_path file) q) key).
  destruct (newFiles files (ensure (tf_path file) q)) as [kept_rest q2]. simpl in *.
  now rewrite IH, in_flight_ensure.
Qed.

Lemma newFiles_keys files : forall q file,
  In file files -> is_Some (snd (newFiles files q) !! tf_path file).
Proof.
  assert (Hkeep : forall fs q key, is_Some (q !! key) ->
                                   is_Some (snd (newFiles fs q) !! key)).
  { clear. induction fs as [|f fs IH]; intros q key Hk; [exact Hk|].
    simpl. specialize (IH (ensure (tf_path f) q) key).
    destruct (newFiles fs (ensure (tf_path f) q)) as [kept_rest q2]. simpl in *.
    apply IH. unfold ensure. destruct (q !! tf_path f) eqn:E; [exact Hk|].
    destruct (decide (tf_path f = key)) as [<-|Hne].
    - rewrite lookup_insert_eq. eauto.
    - now rewrite lookup_insert_ne. }
  induction files as [|f files IH]; intros q file [].
  - subst f. simpl.
    pose proof (Hkeep files (ensure (tf_path file) q) (tf_path file)) as H.
    destruct (newFiles files (ensure (tf_path file) q)) as [kept_rest q2]. simpl in *.
    apply H. unfold ensure. destruct (q !! tf_path file) eqn:E.
    + rewrite E. eauto.
    + rewrite lookup_insert_eq. eauto.
  - simpl. specialize (IH (ensure (tf_path f) q) file H).
    now destruct (newFiles files (ensure (tf_path f) q)) as [kept_rest q2].
Qed.

Lemma imap_fc_id {A} (f : A -> string) (next : nat) (l : list A) :
  map fc_id (imap (fun i x => {| fc_ref := (next + i)%nat; fc_id := f x |}) l) = map f l.
Proof.
  revert next. induction l as [|x l IH]; intros next; [reflexivity|].
  simpl. f_equal. rewrite <- (IH (S next)). f_equal.
  apply imap_ext. intros i y _. simpl. f_equal. lia.
Qed.

Lemma imap_fc_ref {A} (f : A -> string) (next : nat) (l : list A) :
  map fc_ref (imap (fun i x => {| fc_ref := (next + i)%nat; fc_id := f x |}) l)
  = seq next (length l).
Proof.
  revert next. induction l as [|x l IH]; intros next; [reflexivity|].
  simpl. f_equal; [lia|]. rewrite <- (IH (S next)). f_equal.
  apply imap_ext. intros i y _. simpl. f_equal. lia.
Qed.

(** X5. [generateTasksList] schedules, in the order of the document list,
    exactly the documents that pass the two path filters and the two tag
    filters and have no cache entry in flight under their path.  The cache
    entries it makes have fresh, distinct references; it registers and
    releases nothing, but every document that passed the filters has a key
    in the file queue afterwards. *)
Theorem generateTasksList_schedules :
  forall (files : list TFile)
         (includeFilter excludeFilter includeTags excludeTags : list string)
         (next : FileRef) (q : gmap string (list FileRef)),
    let r := generateTasksList getFileCache files includeFilter excludeFilter
                               includeTags excludeTags next q in
    let eligible := fun file =>
      pathsIncludeFile includeFilter file && pathsExcludeFilter excludeFilter file
      && fileIncludeTagsFilter getFileCache includeTags file
      && fileExcludeTagsFilter getFileCache excludeTags file in
    map fc_id (fst r)
    = map tf_path
        (List.filter (fun file => eligible file
                                  && (length (in_flight (tf_path file) q) =? 0)%nat) files)
    /\ map fc_ref (fst r) = seq next (length (fst r))
    /\ (forall key, in_flight key (snd r) = in_flight key q)
    /\ (forall file, In file files -> eligible file = true ->
                     is_Some (snd r !! tf_path file)).
Proof.
  intros files includeFilter excludeFilter includeTags excludeTags next q r eligible.
  subst r. unfold generateTasksList.
  set (candidates := List.filter (fileExcludeTagsFilter getFileCache excludeTags) _).
  assert (Hc : candidates = List.filter eligible files).
  { subst candidates eligible. clear. induction files as [|f files IH]; [reflexivity|].
    simpl. destruct (pathsIncludeFile includeFilter f); simpl; [|exact IH].
    destruct (pathsExcludeFilter excludeFilter f); simpl; [|exact IH].
    destruct (fileIncludeTagsFilter getFileCache includeTags f); simpl; [|exact IH].
    destruct (fileExcludeTagsFilter getFileCache excludeTags f); simpl; [|exact IH].
    now rewrite IH. }
  pose proof (newFiles_selected candidates q) as Hsel.
  pose proof (newFiles_in_flight candidates q) as Hfl.
  pose proof (newFiles_keys candidates q) as Hkeys.
  destruct (newFiles candidates q) as [selected q'] eqn:E. simpl in *.
  repeat split.
  - rewrite imap_fc_id, Hsel, Hc. f_equal. clear.
    induction files as [|f files IH]; [reflexivity|].
    simpl. destruct (eligible f); simpl; [|exact IH].
    destruct (length (in_flight (tf_path f) q) =? 0)%nat; [now rewrite IH|exact IH].
  - rewrite imap_fc_ref. now rewrite length_imap.
  - exact Hfl.
  - intros file Hin Hel. apply Hkeys. rewrite Hc. apply filter_In. now split.
Qed.

End Scheduling.

(** ** The refresh result and the task table *)

Section Table.

Import Adapter.

Lemma getFulfilled_app {T} (xs ys : list (PromiseSettledResult T)) :
  getFulfilled (xs ++ ys) = getFulfilled xs ++ getFulfilled ys.
Proof. apply omap_app. Qed.

Lemma getRejected_app {T} (xs ys : list (PromiseSettledResult T)) :
  getRejected (xs ++ ys) = getRejected xs ++ getRejected ys.
Proof. apply omap_app. Qed.

(** X6. A refresh isolates failures: a document whose resolution was
    rejected, or gave [null], adds nothing to the records returned and to
    the table - it is as if the document had not been scanned - and a
    rejection adds exactly its reason to the errors; a fulfilled document
    adds its records in place. *)
Theorem setTasks_isolates_failures :
  forall (xs ys : list (PromiseSettledResult (list TaskDataModel)))
         (reason : option string) (l : list TaskDataModel)
         (tbl : gmap string TaskDataModel),
    let tasks_of := fun settled => fst (fst (setTasks settled tbl)) in
    let errors_of := fun settled => snd (fst (setTasks settled tbl)) in
    let table_of := fun settled => snd (setTasks settled tbl) in
    (tasks_of (xs ++ rejected reason :: ys) = tasks_of (xs ++ ys)
     /\ table_of (xs ++ rejected reason :: ys) = table_of (xs ++ ys)
     /\ errors_of (xs ++ rejected reason :: ys)
        = errors_of xs ++ default "Unknown error."%string reason :: errors_of ys)
    /\ (tasks_of (xs ++ fulfilled None :: ys) = tasks_of (xs ++ ys)
        /\ table_of (xs ++ fulfilled None :: ys) = table_of (xs ++ ys)
        /\ errors_of (xs ++ fulfilled None :: ys) = errors_of (xs ++ ys))
    /\ (tasks_of (xs ++ fulfilled (Some l) :: ys) = tasks_of xs ++ l ++ tasks_of ys
        /\ errors_of (xs ++ fulfilled (Some l) :: ys) = errors_of (xs ++ ys)).
Proof.
  intros xs ys reason l tbl tasks_of errors_of table_of.
  subst tasks_of errors_of table_of. unfold setTasks. cbn [fst snd].
  rewrite !getFulfilled_app, !getRejected_app.
  change (getFulfilled (rejected reason :: ys)) with (getFulfilled ys).
  change (getFulfilled (fulfilled None :: ys)) with (getFulfilled ys).
  change (getFulfilled (fulfilled (Some l) :: ys)) with (l :: getFulfilled ys).
  change (getRejected (rejected reason :: ys))
    with (default "Unknown error."%string reason :: getRejected ys).
  change (getRejected (fulfilled (@None (list TaskDataModel)) :: ys)) with (getRejected ys).
  change (getRejected (fulfilled (Some l) :: ys)) with (getRejected ys).
  repeat split.
  rewrite concat_app. reflexivity.
Qed.

Lemma mergeTasks_snoc ts t tbl :
  mergeTasks (ts ++ [t]) tbl = <[path t := t]> (mergeTasks ts tbl).
Proof. unfold mergeTasks. now rewrite fold_left_app. Qed.

Lemma last_of_path_snoc key ts t :
  last_of_path key (ts ++ [t])
  = if String.eqb (path t) key then Some t else last_of_path key ts.
Proof.
  unfold last_of_path. rewrite List.filter_app. simpl.
  destruct (String.eqb (path t) key).
  - apply last_snoc.
  - now rewrite app_nil_r.
Qed.

(** X7. The table is keyed by document path and the last writer wins:
    after a merge, the entry under a path is the last merged record of that
    document, or the entry that was there when no merged record belongs to
    the document. *)
Theorem mergeTasks_lookup :
  forall (tasks : list TaskDataModel) (tbl : gmap string TaskDataModel) (key : string),
    mergeTasks tasks tbl !! key
    = match last_of_path key tasks with
      | Some t => Some t
      | None => tbl !! key
      end.
Proof.
  intros tasks tbl key. induction tasks as [|t ts IH] using rev_ind; [reflexivity|].
  rewrite mergeTasks_snoc, last_of_path_snoc.
  destruct (String.eqb_spec (path t) key) as [<-|Hne].
  - apply lookup_insert_eq.
  - now rewrite lookup_insert_ne.
Qed.

Lemma mergeTasks_keyed ts tbl : keyed_by_path tbl -> keyed_by_path (mergeTasks ts tbl).
Proof.
  intros H key t. rewrite mergeTasks_lookup. unfold last_of_path.
  destruct (last (List.filter (fun u => String.eqb (path u) key) ts)) as [u|] eqn:E.
  - intros [= <-]. apply last_Some_elem_of, list_elem_of_In, filter_In in E.
    destruct E as [_ E]. now apply String.eqb_eq in E.
  - apply H.
Qed.

Lemma mergeTasks_dom ts (tbl : gmap string TaskDataModel) :
  dom (mergeTasks ts tbl) = dom tbl ∪ list_to_set (map path ts).
Proof.
  induction ts as [|t ts IH] using rev_ind.
  - simpl. now rewrite (right_id_L ∅ (∪)).
  - rewrite mergeTasks_snoc, dom_insert_L, IH, map_app, list_to_set_app_L. simpl.
    rewrite (right_id_L ∅ (∪)), (comm_L (∪) {[path t]}). now rewrite (assoc_L (∪)).
Qed.

(** X8. Over any sequence of refreshes starting from the empty table,
    every entry of the table is filed under the path of its record, and the
    keys of the table are exactly the paths of the documents that
    contributed a record. *)
Theorem task_table_keyed_by_path :
  forall batches : list (list TaskDataModel),
    let tbl := fold_left (fun tbl tasks => mergeTasks tasks tbl) batches ∅ in
    keyed_by_path tbl
    /\ dom tbl = list_to_set (map path (concat batches))
    /\ (size tbl <= length (concat batches))%nat.
Proof.
  intros batches tbl. subst tbl.
  assert (H : forall start : gmap string TaskDataModel,
             (keyed_by_path start ->
              keyed_by_path (fold_left (fun tbl tasks => mergeTasks tasks tbl) batches start))
             /\ dom (fold_left (fun tbl tasks => mergeTasks tasks tbl) batches start)
                = dom start ∪ list_to_set (map path (concat batches))).
  { induction batches as [|b batches IH]; intros start.
    - simpl. split; [exact id|now rewrite (right_id_L ∅ (∪))].
    - simpl. destruct (IH (mergeTasks b start)) as [IH1 IH2]. split.
      + intros Hk. now apply IH1, mergeTasks_keyed.
      + rewrite IH2, mergeTasks_dom, map_app, list_to_set_app_L.
        now rewrite (assoc_L (∪)). }
  destruct (H ∅) as [H1 H2].
  assert (Hd : dom (fold_left (fun tbl tasks => mergeTasks tasks tbl) batches ∅)
               = list_to_set (map path (concat batches))).
  { rewrite H2, dom_empty_L. now rewrite (left_id_L ∅ (∪)). }
  split; [apply H1; intros key t; now rewrite lookup_empty|].
  split; [exact Hd|].
  rewrite <- size_dom, Hd.
  rewrite <- (length_map path (concat batches)).
  generalize (map path (concat batches)). intros l.
  induction l as [|x l IHl].
  { change (size (∅ : gset string) <= 0)%nat. now rewrite size_empty. }
  simpl. destruct (decide (x ∈ (list_to_set l : gset string))) as [Hin|Hnin].
  - rewrite (subseteq_union_1_L {[x]} (list_to_set l)); [lia|].
    now apply singleton_subseteq_l.
  - rewrite size_union by now apply disjoint_singleton_l.
    rewrite size_singleton. lia.
Qed.

End Table.

(** ** More on the line parser *)

Section LineParser.

Lemma dedup_from_In seen l x :
  In x (JsString.dedup_from seen l) <-> In x l /\ ~ In x seen.
Proof.
  revert seen. induction l as [|y l IH]; intros seen; simpl; [tauto|].
  destruct (existsb (String.eqb y) seen) eqn:E.
  - apply existsb_eqb_In in E. rewrite IH. split.
    + intros [H1 H2]. now split; [right|].
    + intros [[->|H1] H2]; [contradiction|now split].
  - assert (Hy : ~ In y seen).
    { intros H. apply existsb_eqb_In in H. congruence. }
    simpl. rewrite IH. simpl. split.
    + intros [->|[H1 H2]]; [split; [now left|exact Hy]|].
      split; [now right|tauto].
    + intros [[->|H1] H2]; [now left|].
      destruct (String.eqb_spec y x) as [->|Hne]; [now left|right].
      split; [exact H1|]. intros [E'|H3]; [contradiction|contradiction].
Qed.

Lemma dedup_from_NoDup seen l : List.NoDup (JsString.dedup_from seen l).
Proof.
  revert seen. induction l as [|y l IH]; intros seen; simpl; [constructor|].
  destruct (existsb (String.eqb y) seen); [apply IH|].
  constructor; [|apply IH].
  rewrite dedup_from_In. simpl. tauto.
Qed.

Lemma dedup_from_seen_ext seen1 seen2 l :
  (forall x, In x seen1 <-> In x seen2) ->
  JsString.dedup_from seen1 l = JsString.dedup_from seen2 l.
Proof.
  revert seen1 seen2. induction l as [|y l IH]; intros seen1 seen2 H; simpl; [reflexivity|].
  assert (E : existsb (String.eqb y) seen1 = existsb (String.eqb y) seen2).
  { apply eq_true_iff_eq. rewrite !existsb_eqb_In. apply H. }
  rewrite E. destruct (existsb (String.eqb y) seen2); [now apply IH|].
  f_equal. apply IH. intros x. simpl. rewrite H. tauto.
Qed.

Lemma dedup_from_app seen l k :
  JsString.dedup_from seen (l ++ k)
  = JsString.dedup_from seen l ++ JsString.dedup_from (l ++ seen) k.
Proof.
  revert seen. induction l as [|y l IH]; intros seen; simpl; [reflexivity|].
  destruct (existsb (String.eqb y) seen) eqn:E.
  - rewrite IH. f_equal. apply dedup_from_seen_ext. intros x.
    apply existsb_eqb_In in E. simpl. rewrite !in_app_iff. split; [tauto|].
    intros [->|H]; [now right|exact H].
  - simpl. rewrite IH. f_equal. f_equal. apply dedup_from_seen_ext. intros x.
    simpl. rewrite !in_app_iff. simpl. tauto.
Qed.

Lemma dedup_from_all_seen seen k :
  (forall x, In x k -> In x seen) -> JsString.dedup_from seen k = [].
Proof.
  induction k as [|y k IH]; intros H; simpl; [reflexivity|].
  assert (E : existsb (String.eqb y) seen = true).
  { apply existsb_eqb_In, H. now left. }
  rewrite E. apply IH. intros x Hx. apply H. now right.
Qed.

(** Appending elements that are already there does not change the
    distinct elements. *)
Lemma dedup_absorb l k :
  (forall x, In x k -> In x l) -> JsString.dedup (l ++ k) = JsString.dedup l.
Proof.
  intros H. unfold JsString.dedup. rewrite dedup_from_app.
  rewrite (dedup_from_all_seen (l ++ []) k); [apply app_nil_r|].
  intros x Hx. rewrite app_nil_r. now apply H.
Qed.

Lemma dedup_twice l k : JsString.dedup (l ++ k ++ k) = JsString.dedup (l ++ k).
Proof.
  rewrite app_assoc. apply dedup_absorb.
  intros x Hx. rewrite in_app_iff. now right.
Qed.

Lemma fromLine_tags_after rx ln filePath a t :
  fst (fromLine rx ln filePath a) = Normal (Some t) ->
  snd (fromLine rx ln filePath a)
  = with_tags a (arg_tags a ++ declared_tags (arg_frontMatter a)).
Proof.
  unfold fromLine.
  destruct (taskRegex rx ln) as [[[[g1 g2] g3] g4]|]; [|discriminate].
  destruct a as [pa po ol tg [fm|]]; simpl.
  2:{ intros _. now rewrite app_nil_r. }
  unfold push_tags, push_tag.
  destruct (fm !! "tag"%string) as [[s|l1| |]|];
    destruct (fm !! "tags"%string) as [[s'|l2| |]|]; simpl;
    try destruct (String.eqb s ""); simpl; intros H; try discriminate H;
    unfold with_tags; simpl; now rewrite <- ?app_assoc, ?app_nil_r.
Qed.

(** X9. [fromLine] answers [null] exactly for a line that is not a task
    line, and throws exactly for a task line of a document whose front
    matter holds, under [tags], an object that is not an array. *)
Theorem fromLine_null_and_throw :
  forall rx ln filePath a,
    (fst (fromLine rx ln filePath a) = Normal None <-> taskRegex rx ln = None)
    /\ (fst (fromLine rx ln filePath a) = Throw <->
        is_Some (taskRegex rx ln)
        /\ exists fm, arg_frontMatter a = Some fm /\ fm !! "tags"%string = Some FmObject).
Proof.
  intros rx ln filePath a. unfold fromLine.
  destruct (taskRegex rx ln) as [[[[g1 g2] g3] g4]|]; simpl.
  2:{ split; [tauto|]. split; [discriminate|]. intros [[x Hx] _]. discriminate Hx. }
  destruct (arg_frontMatter a) as [fm|]; simpl.
  2:{ split; split; try discriminate. intros (_ & fm & H & _). discriminate H. }
  unfold push_tags.
  destruct (fm !! "tags"%string) as [[s'|l2| |]|] eqn:E; simpl.
  all: split; [split; discriminate|].
  all: split.
  all: try discriminate.
  all: try (intros (_ & fm' & [= <-] & H); rewrite E in H; discriminate H).
  - intros _. split; [eauto|]. exists fm. now split.
  - reflexivity.
Qed.

Lemma fromLine_tags_dedup rx ln filePath a t :
  fst (fromLine rx ln filePath a) = Normal (Some t) ->
  tags t = JsString.dedup (arg_tags a ++ declared_tags (arg_frontMatter a)).
Proof.
  intros H.
  destruct (fromLine_returns rx ln filePath a t H)
    as (g1 & g2 & g3 & g4 & _ & _ & _ & _ & _ & _ & _ & _ & _ & _ & Htags).
  now rewrite (fromLine_tags_after rx ln filePath a t H) in Htags.
Qed.

(** X10. The tags of a returned record are, without repetition, the tags
    supplied for the line together with the tags the front matter
    declares. *)
Theorem fromLine_tags :
  forall rx ln filePath a t,
    fst (fromLine rx ln filePath a) = Normal (Some t) ->
    List.NoDup (tags t)
    /\ (forall x, In x (tags t) <->
                  In x (arg_tags a) \/ In x (declared_tags (arg_frontMatter a))).
Proof.
  intros rx ln filePath a t H.
  rewrite (fromLine_tags_dedup rx ln filePath a t H).
  unfold JsString.dedup. split; [apply dedup_from_NoDup|].
  intros x. rewrite dedup_from_In, in_app_iff. simpl. tauto.
Qed.

Lemma fromLine_tags_witness :
  exists t,
    fst (fromLine SpecRegex.TaskRegularExpressions "- [ ] buy milk #todo" "a.md"
           {| arg_parent := "a.md"%string;
              arg_position := {| pos_start := origin; pos_end := origin |};
              arg_outLinks := [];
              arg_tags := ["#todo"; "#todo"]%string;
              arg_frontMatter := Some {[ "tags"%string := FmArray ["#shop"; "#todo"]%string ]} |})
    = Normal (Some t)
    /\ tags t = ["#todo"; "#shop"]%string
    /\ List.NoDup (tags t)
    /\ (forall x, In x (tags t) <->
                  In x ["#todo"; "#todo"]%string
                  \/ In x (declared_tags
                             (Some {[ "tags"%string := FmArray ["#shop"; "#todo"]%string ]}))).
Proof.
  eexists. split; [reflexivity|]. split; [reflexivity|].
  apply (fromLine_tags SpecRegex.TaskRegularExpressions "- [ ] buy milk #todo" "a.md"
           {| arg_parent := "a.md"%string;
              arg_position := {| pos_start := origin; pos_end := origin |};
              arg_outLinks := [];
              arg_tags := ["#todo"; "#todo"]%string;
              arg_frontMatter := Some {[ "tags"%string := FmArray ["#shop"; "#todo"]%string ]} |}).
  reflexivity.
Defined.

(** X11. Parsing a line again on the arguments the first call left behind
    - the tags list now holding the front-matter tags - returns the same
    record. *)
Theorem fromLine_again :
  forall rx ln filePath a t,
    fst (fromLine rx ln filePath a) = Normal (Some t) ->
    fst (fromLine rx ln filePath (snd (fromLine rx ln filePath a))) = Normal (Some t).
Proof.
  intros rx ln filePath a t H.
  rewrite (fromLine_tags_after rx ln filePath a t H).
  revert H. unfold fromLine.
  destruct (taskRegex rx ln) as [[[[g1 g2] g3] g4]|]; [|discriminate].
  destruct a as [pa po ol tg [fm|]]; simpl.
  { unfold push_tags, push_tag.
    destruct (fm !! "tag"%string) as [[s|l1| |]|];
      destruct (fm !! "tags"%string) as [[s'|l2| |]|]; simpl;
      try destruct (String.eqb s ""); simpl; intros H; try discriminate H;
      injection H as <-; do 2 f_equal; f_equal;
      rewrite <- ?app_assoc, ?app_nil_r; simpl;
      first [ reflexivity
            | apply (dedup_twice tg (s :: l2))
            | apply (dedup_twice tg [s])
            | apply (dedup_twice tg l2) ]. }
  intros H. injection H as <-. now rewrite app_nil_r.
Qed.

Lemma fromLine_again_witness :
  exists t,
    fst (fromLine SpecRegex.TaskRegularExpressions "- [ ] buy milk" "a.md"
           {| arg_parent := "a.md"%string;
              arg_position := {| pos_start := origin; pos_end := origin |};
              arg_outLinks := [];
              arg_tags := ["#a"%string];
              arg_frontMatter := Some {[ "tag"%string := FmString "#b" ]} |})
    = Normal (Some t)
    /\ fst (fromLine SpecRegex.TaskRegularExpressions "- [ ] buy milk" "a.md"
              (snd (fromLine SpecRegex.TaskRegularExpressions "- [ ] buy milk" "a.md"
                      {| arg_parent := "a.md"%string;
                         arg_position := {| pos_start := origin; pos_end := origin |};
                         arg_outLinks := [];
                         arg_tags := ["#a"%string];
                         arg_frontMatter := Some {[ "tag"%string := FmString "#b" ]} |})))
       = Normal (Some t).
Proof.
  eexists. split; [reflexivity|].
  apply (fromLine_again SpecRegex.TaskRegularExpressions "- [ ] buy milk" "a.md").
  reflexivity.
Defined.

(** X12. In every record [fromLine] returns, the visual text is trimmed,
    [checked] says that the visual text is not empty, a completed task is
    fully completed and has the marker [x], and the status is the marker
    as written. *)
Theorem fromLine_flags :
  forall rx ln filePath a t,
    fst (fromLine rx ln filePath a) = Normal (Some t) ->
    (exists d, visual t = Some d /\ JsString.trim d = d)
    /\ (checked t = true <-> visual t <> Some ""%string)
    /\ (completed t = true -> fullyCompleted t = true /\ statusMarker t = "x"%string)
    /\ status t = statusMarker t.
Proof.
  intros rx ln filePath a t H.
  destruct (fromLine_returns rx ln filePath a t H)
    as (g1 & g2 & g3 & g4 & _ & _ & Hsm & Hst & _ & _ & Hvis & Hchk & Hc & Hfc & _).
  split; [exists (description_of rx g4); split; [exact Hvis|apply description_trimmed]|].
  split; [|split; [|congruence]].
  - rewrite Hchk, Hvis, negb_true_iff. split.
    + intros E [= E']. rewrite E' in E. discriminate E.
    + intros Hne. destruct (String.eqb_spec (description_of rx g4) ""); [|reflexivity].
      destruct Hne. now f_equal.
  - rewrite Hc, Hfc, Hsm. intros E. apply String.eqb_eq in E.
    rewrite E. split; reflexivity.
Qed.

Lemma fromLine_flags_witness :
  exists t,
    fst (fromLine SpecRegex.TaskRegularExpressions "- [x]   paid rent  " "a.md"
           (plain_args "a.md" 19 [])) = Normal (Some t)
    /\ visual t = Some "paid rent"%string
    /\ (exists d, visual t = Some d /\ JsString.trim d = d)
    /\ (checked t = true <-> visual t <> Some ""%string)
    /\ (completed t = true -> fullyCompleted t = true /\ statusMarker t = "x"%string)
    /\ status t = statusMarker t.
Proof.
  eexists. split; [reflexivity|]. split; [reflexivity|].
  apply (fromLine_flags SpecRegex.TaskRegularExpressions "- [x]   paid rent  " "a.md"
           (plain_args "a.md" 19 [])).
  reflexivity.
Defined.

End LineParser.

(** ** Modifiers, filters and ordering *)

Section Pipeline.

Import Options Ordering.

Lemma index_of_spec s l n :
  index_of s l = Some n ->
  l !! n = Some s /\ (forall m, (m < n)%nat -> l !! m <> Some s).
Proof.
  revert n. induction l as [|x l IH]; intros n; simpl; [discriminate|].
  destruct (String.eqb_spec x s) as [->|Hne].
  - intros [= <-]. split; [reflexivity|]. intros m Hm. lia.
  - destruct (index_of s l) as [k|]; [|discriminate].
    simpl. intros [= <-]. destruct (IH k eq_refl) as [H1 H2].
    split; [exact H1|]. intros [|m] Hm; simpl.
    + congruence.
    + apply H2. lia.
Qed.

Lemma index_of_In s l : In s l <-> is_Some (index_of s l).
Proof.
  induction l as [|x l IH]; simpl.
  - split; [intros []|intros [n Hn]; discriminate Hn].
  - destruct (String.eqb_spec x s) as [->|Hne].
    + split; [eauto|now left].
    + rewrite fmap_is_Some, <- IH. split; [intros [E|H]; [contradiction|exact H]|now right].
Qed.

Lemma orderByStatus_listed statusOrder t n :
  index_of (status t) statusOrder = Some n ->
  orderByStatus statusOrder t = Some (with_order (Num (Z.of_nat n + 1)) t).
Proof.
  intros H. unfold orderByStatus, indexOf. rewrite H.
  assert (E : existsb (String.eqb (status t)) statusOrder = true).
  { apply existsb_eqb_In, index_of_In. eauto. }
  now rewrite E.
Qed.

(** X15. The ordering modifier never drops a task and changes nothing but
    the ordering key: a task whose status is in the status order gets the
    1-based position of the first occurrence of its status, any other task
    is returned as it is. *)
Theorem orderByStatus_position :
  forall (statusOrder : list string) (t : TaskDataModel),
    exists u,
      orderByStatus statusOrder t = Some u
      /\ u = with_order (order u) t
      /\ (~ In (status t) statusOrder -> u = t)
      /\ (In (status t) statusOrder ->
          exists n, order u = Num (Z.of_nat n + 1)
                    /\ statusOrder !! n = Some (status t)
                    /\ forall m, (m < n)%nat -> statusOrder !! m <> Some (status t)).
Proof.
  intros statusOrder t.
  destruct (index_of (status t) statusOrder) as [n|] eqn:E.
  - exists (with_order (Num (Z.of_nat n + 1)) t).
    split; [now apply orderByStatus_listed|]. split; [reflexivity|]. split.
    + intros Hn. destruct Hn. apply index_of_In. eauto.
    + intros _. exists n. split; [reflexivity|]. now apply index_of_spec.
  - assert (Hn : ~ In (status t) statusOrder).
    { intros H. apply index_of_In in H. rewrite E in H. now destruct H. }
    exists t. unfold orderByStatus.
    assert (Eb : existsb (String.eqb (status t)) statusOrder = false).
    { destruct (existsb _ statusOrder) eqn:Eb; [|reflexivity].
      apply existsb_eqb_In in Eb. contradiction. }
    rewrite Eb. simpl. split; [reflexivity|]. split; [now destruct t|].
    split; [reflexivity|contradiction].
Qed.

(** X16. After the ordering modifier, the default comparator puts a task
    first exactly when its status comes no later in the status order. *)
Theorem defaultSort_follows_status_order :
  forall (statusOrder : list string) (t1 t2 : TaskDataModel) (n1 n2 : nat),
    index_of (status t1) statusOrder = Some n1 ->
    index_of (status t2) statusOrder = Some n2 ->
    exists u1 u2,
      orderByStatus statusOrder t1 = Some u1
      /\ orderByStatus statusOrder t2 = Some u2
      /\ defaultSort (sortable u1) (sortable u2)
         = (if (n1 <=? n2)%nat then Num (-1) else Num 1).
Proof.
  intros statusOrder t1 t2 n1 n2 H1 H2.
  exists (with_order (Num (Z.of_nat n1 + 1)) t1), (with_order (Num (Z.of_nat n2 + 1)) t2).
  split; [now apply orderByStatus_listed|]. split; [now apply orderByStatus_listed|].
  unfold defaultSort, sortable, order_or_zero. simpl.
  destruct (Nat.leb_spec n1 n2).
  - destruct (Z.leb_spec (Z.of_nat n1 + 1) (Z.of_nat n2 + 1)); [reflexivity|lia].
  - destruct (Z.leb_spec (Z.of_nat n1 + 1) (Z.of_nat n2 + 1)); [lia|].
    destruct (Z.eqb_spec (Z.of_nat n1 + 1) (Z.of_nat n2 + 1)); [lia|reflexivity].
Qed.

Lemma defaultSort_follows_status_order_witness :
  exists u1 u2,
    orderByStatus defaultTaskStatusOrder (blank_task "done" (Num 0)) = Some u1
    /\ orderByStatus defaultTaskStatusOrder (blank_task "overdue" (Num 0)) = Some u2
    /\ defaultSort (sortable u1) (sortable u2) = (if (6 <=? 0)%nat then Num (-1) else Num 1).
Proof.
  apply (defaultSort_follows_status_order defaultTaskStatusOrder
           (blank_task "done" (Num 0)) (blank_task "overdue" (Num 0)) 6 0).
  - reflexivity.
  - reflexivity.
Defined.

(** The installed comparator answers a positive number on the probe. *)
Lemma TaskOptions_set_keeps_probe eval settings this :
  (exists n, probe (sortFunction this) = Normal n /\ number_gt n (Num 0) = true) ->
  exists n, probe (sortFunction (fst (TaskOptions_set eval settings this))) = Normal n
            /\ number_gt n (Num 0) = true.
Proof.
  intros Hthis. unfold TaskOptions_set.
  destruct (eval _) as [f|]; [|exact Hthis].
  destruct (probe f) as [test|] eqn:Ep; [|exact Hthis].
  destruct (number_gt test (Num 0)) eqn:Eg; [|exact Hthis].
  simpl. exists test. now split.
Qed.

(** X17. For comparators whose answer depends on their two arguments only
    (every [SortFunction] here; every entry of [sortOptions]): whatever
    options are set, in whatever order and however often, starting from
    fresh options, the installed comparator does not throw on the probe and
    answers a positive number on it - it puts ordering key 2 after ordering
    key 1. *)
Theorem installed_comparator_passes_probe :
  forall (eval : string -> Completion SortFunction) (settings : list PartialUserOption),
    exists n,
      probe (sortFunction (setOptionsAll eval settings new_TaskOptions)) = Normal n
      /\ number_gt n (Num 0) = true.
Proof.
  intros eval settings. unfold setOptionsAll.
  assert (H : forall this,
             (exists n, probe (sortFunction this) = Normal n /\ number_gt n (Num 0) = true) ->
             exists n,
               probe (sortFunction
                        (fold_left (fun o s => fst (TaskOptions_set eval s o)) settings this))
               = Normal n
               /\ number_gt n (Num 0) = true).
  { induction settings as [|s settings IH]; intros this Hthis; [exact Hthis|].
    simpl. apply IH. now apply TaskOptions_set_keeps_probe. }
  apply H. exists (Num 1). split; reflexivity.
Qed.

(** X18. Of the two status comparators the settings offer, the ascending
    one passes validation and is installed, and it agrees with the default
    comparator on tasks that have an ordering key; the descending one fails
    validation, so choosing it logs the warning and leaves the installed
    comparator as it was. *)
Theorem offered_status_comparators :
  (forall eval settings this,
      eval (sort (UserOptions_set settings (user this))) = Normal statusAscending ->
      sortFunction (fst (TaskOptions_set eval settings this)) = statusAscending
      /\ snd (TaskOptions_set eval settings this) = [])
  /\ (forall eval settings this,
         eval (sort (UserOptions_set settings (user this))) = Normal statusDescending ->
         sortFunction (fst (TaskOptions_set eval settings this)) = sortFunction this
         /\ snd (TaskOptions_set eval settings this) = [SortingLambdaInvalid])
  /\ (forall o1 o2,
         statusAscending {| st_order := Some o1 |} {| st_order := Some o2 |}
         = Normal (defaultSort {| st_order := Some o1 |} {| st_order := Some o2 |})).
Proof.
  split; [|split].
  - intros eval settings this H. unfold TaskOptions_set. rewrite H. now split.
  - intros eval settings this H. unfold TaskOptions_set. rewrite H. now split.
  - intros o1 o2. unfold statusAscending, defaultSort, order_or_zero. simpl.
    destruct (number_le o1 o2) eqn:E; [reflexivity|].
    destruct o1 as [|x], o2 as [|y]; simpl in *; try reflexivity.
    apply Z.leb_gt in E. destruct (Z.eqb_spec x y); [lia|reflexivity].
Qed.

End Pipeline.

(** ** More on the registry *)

Section RegistryInvariants.

Import Cache Scan.

Lemma task_keeps_registered it w :
  registered_are_started w -> registered_are_started (snd (task it w)).
Proof.
  intros Hinv. unfold task.
  destruct (_asyncTaskData w !! this_ref it) as [p|] eqn:Ea; [exact Hinv|].
  simpl. intros key r. simpl.
  destruct (decide (id it = key)) as [<-|Hne].
  - rewrite lookup_insert_eq. intros [= <-].
    destruct (internalListQueue w !! id it) as [other|] eqn:El; simpl.
    + destruct (Hinv _ _ El) as [q Hq]. unfold resolved. rewrite Hq.
      rewrite bool_decide_eq_true_2 by eauto. simpl.
      rewrite lookup_insert_eq. eauto.
    + rewrite lookup_insert_eq. eauto.
  - rewrite lookup_insert_ne by exact Hne. intros Hr.
    destruct (Hinv _ _ Hr) as [q Hq].
    destruct (decide (this_ref it = r)) as [<-|Hne'].
    + rewrite lookup_insert_eq. eauto.
    + rewrite lookup_insert_ne by exact Hne'. eauto.
Qed.

Lemma resume_keeps_registered it p o w :
  registered_are_started w -> registered_are_started (getTaskDataModel_resume it p o w).
Proof.
  intros Hinv key r. simpl. intros Hr.
  apply lookup_delete_Some in Hr. destruct Hr as [_ Hr]. exact (Hinv _ _ Hr).
Qed.

Lemma run_keeps_registered evs : forall w,
  registered_are_started w -> registered_are_started (snd (run evs w)).
Proof.
  induction evs as [|[it|it p o] evs IH]; intros w Hinv; simpl; [exact Hinv| |].
  - pose proof (task_keeps_registered it w Hinv) as H1.
    destruct (task it w) as [p w1]. specialize (IH w1 H1).
    now destruct (run evs w1).
  - apply IH. now apply resume_keeps_registered.
Qed.

(** X19. In every state the cache reaches from the initial one, each entry
    registered in the item queue has its resolution memoized; so a
    resolution that starts always registers its own entry under its
    identity, replacing whatever entry was registered there. *)
Theorem resolution_registers_itself :
  forall (evs : list Event) (it : ItemTaskCache),
    let w := snd (run evs emptyWorld) in
    registered_are_started w
    /\ (_asyncTaskData w !! this_ref it = None ->
        internalListQueue (snd (task it w)) !! id it = Some (this_ref it)).
Proof.
  intros evs it w.
  assert (Hinv : registered_are_started w).
  { apply run_keeps_registered. intros key r H. simpl in H.
    now rewrite lookup_empty in H. }
  split; [exact Hinv|].
  intros Ha. unfold task. rewrite Ha. simpl. rewrite lookup_insert_eq.
  destruct (internalListQueue w !! id it) as [other|] eqn:El; simpl; [|reflexivity].
  destruct (Hinv _ _ El) as [q Hq]. unfold resolved. rewrite Hq.
  now rewrite bool_decide_eq_true_2 by eauto.
Qed.

Lemma in_flight_push key key' x q :
  in_flight key' (push key x (ensure key q))
  = in_flight key' q ++ (if decide (key = key') then [x] else []).
Proof.
  unfold push, in_flight. destruct (decide (key = key')) as [<-|Hne].
  - rewrite lookup_insert_eq. simpl. f_equal.
    unfold ensure. destruct (q !! key) eqn:E; [now rewrite E|].
    now rewrite lookup_insert_eq.
  - rewrite lookup_insert_ne by exact Hne. rewrite app_nil_r.
    apply (in_flight_ensure key key' q).
Qed.

Lemma task_in_flight it w key :
  exists more, in_flight key (internalFileQueue (snd (task it w)))
               = in_flight key (internalFileQueue w) ++ more.
Proof.
  unfold task. destruct (_asyncTaskData w !! this_ref it) as [p|].
  - exists []. now rewrite app_nil_r.
  - simpl. rewrite in_flight_push. eauto.
Qed.

Lemma task_fresh_in_flight it w :
  _asyncTaskData w !! this_ref it = None ->
  in_flight (fc_id (_fileCache it)) (internalFileQueue (snd (task it w)))
  = in_flight (fc_id (_fileCache it)) (internalFileQueue w) ++ [fc_ref (_fileCache it)].
Proof.
  intros Ha. unfold task. rewrite Ha. simpl. rewrite in_flight_push.
  now rewrite decide_True.
Qed.

Lemma resume_in_flight it p o w key :
  id it <> key ->
  in_flight key (internalFileQueue (getTaskDataModel_resume it p o w))
  = in_flight key (internalFileQueue w).
Proof.
  intros Hne. unfold in_flight. now rewrite resume_file_queue_other by congruence.
Qed.

Lemma run_in_flight evs : forall w key,
  (forall it p o, In (Complete it p o) evs -> id it <> key) ->
  exists more, in_flight key (internalFileQueue (snd (run evs w)))
               = in_flight key (internalFileQueue w) ++ more.
Proof.
  induction evs as [|[it|it p o] evs IH]; intros w key Hc; simpl.
  - exists []. now rewrite app_nil_r.
  - destruct (task_in_flight it w key) as [m1 H1].
    destruct (task it w) as [p w1]. simpl in H1.
    destruct (IH w1 key) as [m2 H2]; [intros it' p' o' Hin; apply (Hc it' p' o'); now right|].
    destruct (run evs w1) as [answers w2]. simpl in *.
    exists (m1 ++ m2). now rewrite H2, H1, app_assoc.
  - destruct (IH (getTaskDataModel_resume it p o w) key) as [m H];
      [intros it' p' o' Hin; apply (Hc it' p' o'); now right|].
    exists m. rewrite H. f_equal. apply resume_in_flight.
    apply (Hc it p o). now left.
Qed.

(** X20. The list of documents in flight under a path only grows: no
    access and no completion of an entry whose identity differs from the
    path takes a document off it. *)
Theorem file_queue_only_grows :
  forall (evs : list Event) (w : World) (key : string),
    (forall it p o, In (Complete it p o) evs -> id it <> key) ->
    exists more, in_flight key (internalFileQueue (snd (run evs w)))
                 = in_flight key (internalFileQueue w) ++ more.
Proof. intros evs w key H. now apply run_in_flight. Qed.

Lemma file_queue_only_grows_witness :
  exists more,
    in_flight "a.md"
      (internalFileQueue
         (snd (run [Access rootItem; Complete rootItem 0%nat ResolvedNull] emptyWorld)))
    = in_flight "a.md" (internalFileQueue emptyWorld) ++ more.
Proof.
  apply (file_queue_only_grows [Access rootItem; Complete rootItem 0%nat ResolvedNull]
           emptyWorld "a.md").
  intros it p o [H|[H|[]]]; [discriminate H|]. injection H as <- _ _. discriminate.
Defined.

Lemma generateTasksList_free getFileCache files includeFilter excludeFilter includeTags
      excludeTags next q key :
  In key (map fc_id (fst (generateTasksList getFileCache files includeFilter excludeFilter
                            includeTags excludeTags next q))) ->
  in_flight key q = [].
Proof.
  unfold generateTasksList.
  set (candidates := List.filter (fileExcludeTagsFilter getFileCache excludeTags) _).
  pose proof (newFiles_selected candidates q) as Hsel.
  destruct (newFiles candidates q) as [selected q']. simpl in *.
  rewrite imap_fc_id, Hsel, in_map_iff. intros (file & <- & Hin).
  apply filter_In in Hin. destruct Hin as [_ Hlen].
  apply Nat.eqb_eq in Hlen. now destruct (in_flight (tf_path file) q).
Qed.

(** X21. Once the resolution of an item of a document has started, the
    document is not scheduled again by [generateTasksList], whatever
    happens next, as long as no completing entry has the document path as
    its identity. *)
Theorem started_document_not_rescheduled :
  forall (getFileCache : TFile -> option CachedMetadata) (files : list TFile)
         (includeFilter excludeFilter includeTags excludeTags : list string)
         (next : FileRef) (evs : list Event) (w : World) (it : ItemTaskCache),
    _asyncTaskData w !! this_ref it = None ->
    (forall it' p o, In (Complete it' p o) evs -> id it' <> fc_id (_fileCache it)) ->
    ~ In (fc_id (_fileCache it))
         (map fc_id
            (fst (generateTasksList getFileCache files includeFilter excludeFilter
                    includeTags excludeTags next
                    (internalFileQueue (snd (run (Access it :: evs) w)))))).
Proof.
  intros getFileCache files includeFilter excludeFilter includeTags excludeTags next
         evs w it Ha Hc Hin.
  apply generateTasksList_free in Hin. simpl in Hin.
  pose proof (task_fresh_in_flight it w Ha) as H1.
  destruct (task it w) as [p w1]. simpl in H1.
  destruct (run_in_flight evs w1 (fc_id (_fileCache it)) Hc) as [more H2].
  destruct (run evs w1) as [answers w2]. simpl in *.
  rewrite H2, H1 in Hin.
  destruct (in_flight (fc_id (_fileCache it)) (internalFileQueue w)); discriminate Hin.
Qed.

Lemma started_document_not_rescheduled_witness :
  ~ In "a.md"%string
       (map fc_id
          (fst (generateTasksList (fun _ => None) [ {| tf_path := "a.md" |} ] [] [] [] []
                  1%nat
                  (internalFileQueue
                     (snd (run [Access rootItem; Complete rootItem 0%nat ResolvedNull]
                             emptyWorld)))))).
Proof.
  apply (started_document_not_rescheduled (fun _ => None) [ {| tf_path := "a.md" |} ]
           [] [] [] [] 1%nat [Complete rootItem 0%nat ResolvedNull] emptyWorld rootItem).
  - reflexivity.
  - intros it p o [H|[]]. injection H as <- _ _. discriminate.
Defined.

(** X22. The promise of a resolution is pending from the first access
    until the resolution completes; it is then fulfilled with the record,
    or with [null] when the parse gave [null] or failed - it is never
    rejected - and a failed parse logs one warning.  Other promises are not
    touched. *)
Theorem resolution_settles :
  forall (it : ItemTaskCache) (o : Outcome) (w : World),
    _asyncTaskData w !! this_ref it = None ->
    let p := fst (task it w) in
    let w1 := snd (task it w) in
    let w2 := getTaskDataModel_resume it p o w1 in
    observe p w1 = Pending
    /\ observe p w2 = FulfilledWith (settled_value o)
    /\ warnings w2 = (warnings w + match o with Rejected => 1 | _ => 0 end)%nat
    /\ (forall q, q <> p -> observe q w2 = observe q w).
Proof.
  intros it o w Ha p w1 w2. subst p w1 w2. unfold task. rewrite Ha. simpl.
  unfold observe. simpl. repeat split.
  - now rewrite lookup_app_r, Nat.sub_diag by lia.
  - rewrite list_lookup_insert_eq; [now destruct o|].
    rewrite length_app. simpl. lia.
  - destruct o; lia.
  - intros q Hq. rewrite list_lookup_insert_ne by congruence.
    destruct (Nat.lt_ge_cases q (length (promises w))) as [Hlt|Hge].
    + now rewrite lookup_app_l.
    + unfold PromiseRef in *.
      assert (E1 : promises w !! q = None) by now apply lookup_ge_None_2.
      assert (E2 : (promises w ++ [Pending]) !! q = None).
      { apply lookup_ge_None_2. rewrite length_app. simpl. lia. }
      now rewrite E1, E2.
Qed.

Lemma resolution_settles_witness :
  observe (fst (task rootItem emptyWorld)) (snd (task rootItem emptyWorld)) = Pending
  /\ observe (fst (task rootItem emptyWorld))
       (getTaskDataModel_resume rootItem (fst (task rootItem emptyWorld)) Rejected
          (snd (task rootItem emptyWorld)))
     = FulfilledWith (settled_value Rejected)
  /\ warnings (getTaskDataModel_resume rootItem (fst (task rootItem emptyWorld)) Rejected
                 (snd (task rootItem emptyWorld)))
     = (warnings emptyWorld + 1)%nat
  /\ (forall q, q <> fst (task rootItem emptyWorld) ->
                observe q (getTaskDataModel_resume rootItem (fst (task rootItem emptyWorld))
                             Rejected (snd (task rootItem emptyWorld)))
                = observe q emptyWorld).
Proof.
  apply (resolution_settles rootItem Rejected emptyWorld). reflexivity.
Defined.

End RegistryInvariants.

(** ** From a list item to a record *)

Section ItemParsing.

Import Cache Scan ItemParse.

Lemma nearer_heading_step itemLine seen acc s :
  nearest_so_far itemLine seen acc ->
  nearest_so_far itemLine (seen ++ [s]) (nearer_heading itemLine acc s).
Proof.
  destruct acc as [position parentHeader]. unfold nearer_heading, nearest_so_far.
  simpl. intros Hacc.
  destruct (String.eqb_spec (sc_type s) "heading") as [Ht|Ht]; simpl.
  2:{ destruct parentHeader as [h|].
      - destruct Hacc as (Hp & Hin & Hh & Hmax).
        split; [exact Hp|]. split; [apply in_or_app; now left|]. split; [exact Hh|].
        intros s' Hs' Hq. apply in_app_or in Hs'. destruct Hs' as [Hs'|[<-|[]]].
        + now apply Hmax.
        + destruct Hq as [Hq _]. contradiction.
      - destruct Hacc as [Hp Hnone]. split; [exact Hp|].
        intros s' Hs' Hq. apply in_app_or in Hs'. destruct Hs' as [Hs'|[<-|[]]].
        + now apply (Hnone s').
        + destruct Hq as [Hq _]. contradiction. }
  destruct (Z.ltb_spec position (start_line (sc_position s))) as [Hlt|Hge]; simpl.
  2:{ destruct parentHeader as [h|].
      - destruct Hacc as (Hp & Hin & Hh & Hmax).
        split; [exact Hp|]. split; [apply in_or_app; now left|]. split; [exact Hh|].
        intros s' Hs' Hq. apply in_app_or in Hs'. destruct Hs' as [Hs'|[<-|[]]].
        + now apply Hmax.
        + lia.
      - destruct Hacc as [Hp Hnone]. split; [exact Hp|].
        intros s' Hs' Hq. apply in_app_or in Hs'. destruct Hs' as [Hs'|[<-|[]]].
        + now apply (Hnone s').
        + destruct Hq as (_ & Hq & _). lia. }
  destruct (Z.ltb_spec (start_line (sc_position s)) itemLine) as [Hlt'|Hge']; simpl.
  2:{ destruct parentHeader as [h|].
      - destruct Hacc as (Hp & Hin & Hh & Hmax).
        split; [exact Hp|]. split; [apply in_or_app; now left|]. split; [exact Hh|].
        intros s' Hs' Hq. apply in_app_or in Hs'. destruct Hs' as [Hs'|[<-|[]]].
        + now apply Hmax.
        + destruct Hq as (_ & _ & Hq). lia.
      - destruct Hacc as [Hp Hnone]. split; [exact Hp|].
        intros s' Hs' Hq. apply in_app_or in Hs'. destruct Hs' as [Hs'|[<-|[]]].
        + now apply (Hnone s').
        + destruct Hq as (_ & _ & Hq). lia. }
  split; [reflexivity|]. split; [apply in_or_app; right; now left|].
  assert (Hpos : -1 <= position).
  { destruct parentHeader as [h|].
    - destruct Hacc as (Hp & _ & (_ & Hh & _) & _). lia.
    - destruct Hacc as [Hp _]. lia. }
  split; [repeat split; [exact Ht|lia|exact Hlt']|].
  intros s' Hs' Hq. apply in_app_or in Hs'. destruct Hs' as [Hs'|[<-|[]]]; [|lia].
  destruct parentHeader as [h|].
  - destruct Hacc as (Hp & _ & _ & Hmax). specialize (Hmax s' Hs' Hq). lia.
  - destruct Hacc as [_ Hnone]. now destruct (Hnone s' Hs').
Qed.

Lemma nearer_heading_fold itemLine rest : forall seen acc,
  nearest_so_far itemLine seen acc ->
  nearest_so_far itemLine (seen ++ rest) (fold_left (nearer_heading itemLine) rest acc).
Proof.
  induction rest as [|s rest IH]; intros seen acc Hacc; simpl.
  - now rewrite app_nil_r.
  - replace (seen ++ s :: rest) with ((seen ++ [s]) ++ rest)
      by (rewrite <- app_assoc; reflexivity).
    apply IH. now apply nearer_heading_step.
Qed.

(** X23. For an item whose parent line is not positive (a root item),
    [findParent] answers the nearest heading above the item: a heading of the document that starts above the item's
    line, with no heading above the item starting later; it answers [null]
    exactly when no heading starts above the item.  For a nested item it
    answers a section that starts on the parent's line, if there is one. *)
Theorem findParent_nearest_heading :
  forall (sections : list SectionCache) (item : ListItemCache),
    let itemLine := start_line (li_position item) in
    (li_parent item <= 0 ->
     match findParent (Some sections) item with
     | Some h =>
         In h sections /\ heading_before itemLine h
         /\ forall s, In s sections -> heading_before itemLine s ->
                      start_line (sc_position s) <= start_line (sc_position h)
     | None => forall s, In s sections -> ~ heading_before itemLine s
     end)
    /\ (0 < li_parent item ->
        match findParent (Some sections) item with
        | Some h => In h sections /\ start_line (sc_position h) = li_parent item
        | None => forall s, In s sections -> start_line (sc_position s) <> li_parent item
        end)
    /\ findParent None item = None.
Proof.
  intros sections item itemLine. unfold findParent. split; [|split; [|reflexivity]].
  - intros Hp. destruct (Z.ltb_spec 0 (li_parent item)) as [Hlt|_]; [lia|].
    pose proof (nearer_heading_fold itemLine sections [] (-1, None)) as H.
    simpl in H. unfold nearest_so_far at 1 in H. simpl in H.
    specialize (H (conj eq_refl (fun s (Hs : False) => match Hs with end))).
    unfold nearest_so_far in H. fold itemLine.
    destruct (snd (fold_left (nearer_heading itemLine) sections (-1, None))) as [h|].
    + destruct H as (_ & H1 & H2 & H3). auto.
    + destruct H as [_ H]. exact H.
  - intros Hp. destruct (Z.ltb_spec 0 (li_parent item)) as [_|Hge]; [|lia].
    destruct (List.find _ sections) as [h|] eqn:E.
    + apply find_some in E. destruct E as [Hin E]. apply Z.eqb_eq in E. now split.
    + intros s Hs Heq. pose proof (find_none _ _ E s Hs) as Hn. simpl in Hn.
      apply Z.eqb_neq in Hn. contradiction.
Qed.

End ItemParsing.

Section ItemRecords.

Import Cache Scan ItemParse.

Variable rx : RegExps.
Variable withSectionCache : Link -> SectionCache -> string -> Link.
Variable withLinkCache : LinkCache -> Link.

Lemma fromLine_returns_structure ln filePath a t :
  fst (fromLine rx ln filePath a) = Normal (Some t) ->
  link t = arg_parent a /\ section t = arg_parent a /\ header t = arg_parent a
  /\ outlinks t = arg_outLinks a
  /\ position t = arg_position a
  /\ line t = loc_line (pos_start (arg_position a))
  /\ lineCount t = loc_line (pos_end (arg_position a))
                   - loc_line (pos_start (arg_position a)) + 1
  /\ frontMatter t = default ∅ (arg_frontMatter a).
Proof.
  unfold fromLine.
  destruct (taskRegex rx ln) as [[[[g1 g2] g3] g4]|]; [|discriminate].
  destruct (match arg_frontMatter a with
            | Some fm => push_tags fm _
            | None => _
            end) as [tags2|]; [|discriminate].
  simpl. intros [= <-]. simpl. repeat split.
Qed.

Lemma take_drop_substring (m n : nat) (s : string) :
  JsString.take n (JsString.drop m s) = substring m n s.
Proof.
  revert n s. induction m as [|m IH]; intros n s.
  - simpl. revert s. induction n as [|n IHn]; intros [|c s]; simpl; try reflexivity.
    now rewrite IHn.
  - destruct s as [|c s]; simpl; [now destruct n|apply IH].
Qed.

Lemma slice_substring (first last : Z) (s : string) :
  0 <= first <= last -> last <= Z.of_nat (String.length s) ->
  slice first last s = substring (Z.to_nat first) (Z.to_nat (last - first)) s.
Proof.
  intros H1 H2. unfold slice.
  destruct (Z.ltb_spec first 0) as [|_]; [lia|].
  destruct (Z.ltb_spec last 0) as [|_]; [lia|].
  rewrite !Z.min_l by lia. apply take_drop_substring.
Qed.

Lemma findTags_In tagsCache itemLine x :
  In x (findTags tagsCache itemLine) <->
  exists c, In c (default [] tagsCache) /\ tc_tag c = x
            /\ loc_line (pos_start (tc_position c)) = itemLine.
Proof.
  unfold findTags, start_line. destruct tagsCache as [l|]; simpl.
  - rewrite in_map_iff. split.
    + intros (c & <- & Hc). apply filter_In in Hc. destruct Hc as [Hin E].
      apply Z.eqb_eq in E. eauto.
    + intros (c & Hin & <- & E). exists c. split; [reflexivity|].
      apply filter_In. split; [exact Hin|]. now apply Z.eqb_eq.
  - split; [intros []|intros (c & [] & _)].
Qed.

(** X24. When [fromItemCache] returns a record, its raw text is the text
    of the document between the item's offsets (when these lie in the
    document), it carries the path and the item's start line, its tags are
    without repetition the tags cached with a position on that line
    together with the tags the front matter declares, and its out-links are
    made, in cache order, from the links cached with a position on that
    line. *)
Theorem fromItemCache_record :
  forall (item : ListItemCache) (link0 : Link) (filePath content : string)
         (sections : option (list SectionCache)) (links : option (list LinkCache))
         (frontMatter0 : option FrontMatterCache) (tagsCache : option (list TagCache))
         (t : TaskDataModel),
    fromItemCache rx withSectionCache withLinkCache item link0 filePath (Normal content)
                  sections links frontMatter0 tagsCache = Normal (Some t) ->
    let itemLine := loc_line (pos_start (li_position item)) in
    let first := loc_offset (pos_start (li_position item)) in
    let last := loc_offset (pos_end (li_position item)) in
    (0 <= first <= last -> last <= Z.of_nat (String.length content) ->
     text t = substring (Z.to_nat first) (Z.to_nat (last - first)) content)
    /\ path t = filePath
    /\ line t = itemLine
    /\ List.NoDup (tags t)
    /\ (forall x, In x (tags t) <->
                  (exists c, In c (default [] tagsCache) /\ tc_tag c = x
                             /\ loc_line (pos_start (tc_position c)) = itemLine)
                  \/ In x (declared_tags frontMatter0))
    /\ outlinks t
       = map withLinkCache
           (List.filter (fun l => loc_line (pos_start (lc_position l)) =? itemLine)
                        (default [] links)).
Proof.
  intros item link0 filePath content sections links frontMatter0 tagsCache t H
         itemLine first last.
  unfold fromItemCache in H.
  destruct (fromLine_returns _ _ _ _ t H)
    as (g1 & g2 & g3 & g4 & _ & _ & _ & _ & Htext & Hpath & _).
  destruct (fromLine_returns_structure _ _ _ t H)
    as (_ & _ & _ & Hout & _ & Hline & _).
  pose proof (fromLine_tags_dedup _ _ _ _ t H) as Htags. simpl in *.
  split; [intros H1 H2; rewrite Htext; now apply slice_substring|].
  split; [exact Hpath|]. split; [exact Hline|].
  split; [rewrite Htags; apply dedup_from_NoDup|].
  split.
  - intros x. rewrite Htags. unfold JsString.dedup.
    rewrite dedup_from_In, in_app_iff, findTags_In. simpl. tauto.
  - rewrite Hout. unfold findOutLinks, start_line. now destruct links.
Qed.

End ItemRecords.

Lemma fromItemCache_record_witness :
  exists t,
    ItemParse.fromItemCache SpecRegex.TaskRegularExpressions ItemParse.sampleWithSection
      Scan.lc_link ItemParse.sampleItem "a.md" "a.md" (Normal ItemParse.sampleContent)
      (Some ItemParse.sampleSections) None None (Some ItemParse.sampleTags)
    = Normal (Some t)
    /\ tags t = ["#todo"%string]
    /\ (0 <= 8 <= 28 -> 28 <= Z.of_nat (String.length ItemParse.sampleContent) ->
        text t = substring (Z.to_nat 8) (Z.to_nat (28 - 8)) ItemParse.sampleContent)
    /\ path t = "a.md"%string
    /\ line t = 2
    /\ List.NoDup (tags t)
    /\ (forall x, In x (tags t) <->
                  (exists c, In c (default [] (Some ItemParse.sampleTags))
                             /\ Scan.tc_tag c = x
                             /\ loc_line (pos_start (Scan.tc_position c)) = 2)
                  \/ In x (declared_tags None))
    /\ outlinks t
       = map Scan.lc_link
           (List.filter (fun l => loc_line (pos_start (Scan.lc_position l)) =? 2)
                        (default [] None)).
Proof.
  eexists. split; [reflexivity|]. split; [reflexivity|].
  apply (fromItemCache_record SpecRegex.TaskRegularExpressions ItemParse.sampleWithSection
           Scan.lc_link ItemParse.sampleItem "a.md" "a.md" ItemParse.sampleContent
           (Some ItemParse.sampleSections) None None (Some ItemParse.sampleTags)).
  reflexivity.
Defined.

(** ** Item identity *)

Section Identity.

Import Cache.

Lemma append_cancel_l (p a b : string) : p +:+ a = p +:+ b -> a = b.
Proof.
  induction p as [|c p IH]; [now rewrite !append_nil|].
  rewrite !append_cons. intros [= H]. now apply IH.
Qed.

Lemma to_int_not_nil z : Z.to_int z <> Decimal.Pos Decimal.Nil /\ Z.to_int z <> Decimal.Neg Decimal.Nil.
Proof.
  destruct z as [|p|p]; simpl; split; try discriminate.
  - intros [= H]. now apply (DecimalPos.Unsigned.to_uint_nonnil p).
  - intros [= H]. now apply (DecimalPos.Unsigned.to_uint_nonnil p).
Qed.

Lemma toString_inj a b : JsString.toString a = JsString.toString b -> a = b.
Proof.
  unfold JsString.toString. intros H.
  apply (f_equal NilZero.int_of_string) in H.
  destruct (to_int_not_nil a) as [Ha1 Ha2]. destruct (to_int_not_nil b) as [Hb1 Hb2].
  rewrite !NilZero.isi in H by assumption.
  injection H as H. now apply DecimalZ.to_int_inj.
Qed.

(** X25. Within one document the identity of an item cache entry is
    decided by the block id of the item or, without one, by the line number
    of its parent alone: two items without block id have the same identity
    exactly when they have the same parent, whatever their positions, and
    two items with block ids exactly when the block ids are equal. *)
Theorem item_identity_within_document :
  forall (r1 r2 : ItemRef) (fileCache : FileTaskCache) (item1 item2 : ListItemCache),
    (li_id item1 = None -> li_id item2 = None ->
     (id (new_ItemTaskCache r1 fileCache item1) = id (new_ItemTaskCache r2 fileCache item2)
      <-> li_parent item1 = li_parent item2))
    /\ (forall s1 s2, li_id item1 = Some s1 -> li_id item2 = Some s2 ->
                      (id (new_ItemTaskCache r1 fileCache item1)
                       = id (new_ItemTaskCache r2 fileCache item2)
                       <-> s1 = s2)).
Proof.
  intros r1 r2 fileCache item1 item2. unfold new_ItemTaskCache. simpl. split.
  - intros -> ->. split.
    + intros H. apply append_cancel_l in H. now apply toString_inj.
    + now intros ->.
  - intros s1 s2 -> ->. split.
    + apply append_cancel_l.
    + now intros ->.
Qed.

End Identity.

(** ** Reading the filters *)

Section FilterReading.

Import Options.

Variable TaskStatusMarkerMap : string -> option string.

(** X26. What each filter of the chain accepts.  The status filter accepts
    every task when nothing is hidden, and otherwise the tasks of which
    neither the marker is hidden nor the status is what a hidden marker
    stands for.  Tag inclusion, when enabled with a non-empty list, accepts
    the tasks that carry a listed tag; enabled with an empty list it accepts
    every task.  Tag exclusion, when enabled, accepts the tasks that carry no
    listed tag.  Empty filtering, when enabled, accepts the tasks whose
    visual text is present and not blank. *)
Theorem filters_accept :
  forall (opts : UserOptions) (t : TaskDataModel),
    (statusFilter TaskStatusMarkerMap opts t = true <->
     _hideStatusTasks opts = []
     \/ (~ In (statusMarker t) (_hideStatusTasks opts)
         /\ forall marker, In marker (_hideStatusTasks opts) ->
                           TaskStatusMarkerMap marker <> Some (status t)))
    /\ (includeTagsFilter opts t = true <->
        useIncludeTags opts = false
        \/ _taskIncludeTags opts = []
        \/ exists tag, In tag (_taskIncludeTags opts) /\ In tag (tags t))
    /\ (excludeTagsFilter opts t = true <->
        useExcludeTags opts = false
        \/ forall tag, In tag (_taskExcludeTags opts) -> ~ In tag (tags t))
    /\ (emptyFilter opts t = true <->
        filterEmpty opts = false
        \/ exists d, visual t = Some d /\ JsString.trim d <> ""%string).
Proof.
  intros opts t. split; [|split; [|split]].
  - unfold statusFilter. destruct (_hideStatusTasks opts) as [|m hide] eqn:Eh.
    { simpl. split; [now left|reflexivity]. }
    cbn [length Nat.eqb].
    destruct (existsb (String.eqb (statusMarker t)) (m :: hide)) eqn:E1.
    { apply existsb_eqb_In in E1. split; [discriminate|].
      intros [H|[H _]]; [discriminate H|contradiction]. }
    assert (Hn : ~ In (statusMarker t) (m :: hide)).
    { intros H. apply existsb_eqb_In in H. congruence. }
    rewrite negb_true_iff. split.
    + intros E2. right. split; [exact Hn|]. intros marker Hin Hmap.
      assert (Ht : existsb (fun marker => match TaskStatusMarkerMap marker with
                                          | Some s => String.eqb s (status t)
                                          | None => false
                                          end) (m :: hide) = true).
      { apply existsb_exists. exists marker. split; [exact Hin|].
        rewrite Hmap. apply String.eqb_refl. }
      congruence.
    + intros [H|[_ H]]; [discriminate H|].
      match goal with |- ?b = false => destruct b eqn:E2 end; [|reflexivity].
      apply existsb_exists in E2. destruct E2 as (marker & Hin & Hm).
      destruct (TaskStatusMarkerMap marker) as [s|] eqn:Es; [|discriminate Hm].
      apply String.eqb_eq in Hm. subst s. now destruct (H marker Hin).
  - unfold includeTagsFilter. destruct (useIncludeTags opts); simpl.
    2:{ split; [now left|reflexivity]. }
    destruct (_taskIncludeTags opts) as [|x l]; simpl.
    { split; [right; now left|reflexivity]. }
    change (existsb (String.eqb x) (tags t)
            || existsb (fun tag => existsb (String.eqb tag) (tags t)) l)
      with (existsb (fun tag => existsb (String.eqb tag) (tags t)) (x :: l)).
    destruct (existsb _ (x :: l)) eqn:E.
    + split; [|reflexivity]. intros _. right. right.
      apply existsb_exists in E. destruct E as (tag & Hin & Ht).
      exists tag. split; [exact Hin|]. now apply existsb_eqb_In.
    + split; [discriminate|].
      intros [H|[H|(tag & Hin & Ht)]]; try discriminate H.
      assert (E' : existsb (fun tag => existsb (String.eqb tag) (tags t)) (x :: l) = true).
      { apply existsb_exists. exists tag. split; [exact Hin|]. now apply existsb_eqb_In. }
      congruence.
  - unfold excludeTagsFilter. destruct (useExcludeTags opts); simpl.
    2:{ split; [now left|reflexivity]. }
    destruct (_taskExcludeTags opts) as [|x l]; simpl.
    { split; [|reflexivity]. intros _. right. intros tag []. }
    change (negb (existsb (String.eqb x) (tags t))
            && forallb (fun tag => negb (existsb (String.eqb tag) (tags t))) l)
      with (forallb (fun tag => negb (existsb (String.eqb tag) (tags t))) (x :: l)).
    destruct (forallb _ (x :: l)) eqn:E.
    + split; [|reflexivity]. intros _. right. intros tag Hin Ht.
      rewrite forallb_forall in E. specialize (E tag Hin).
      apply negb_true_iff in E. apply existsb_eqb_In in Ht. congruence.
    + split; [discriminate|]. intros [H|H]; [discriminate H|].
      assert (E' : forallb (fun tag => negb (existsb (String.eqb tag) (tags t))) (x :: l)
                   = true).
      { apply forallb_forall. intros tag Hin. apply negb_true_iff.
        destruct (existsb (String.eqb tag) (tags t)) eqn:Et; [|reflexivity].
        apply existsb_eqb_In in Et. now destruct (H tag Hin). }
      congruence.
  - unfold emptyFilter. destruct (filterEmpty opts); simpl.
    2:{ split; [now left|reflexivity]. }
    destruct (visual t) as [d|]; simpl.
    + rewrite negb_true_iff. split.
      * intros E. right. exists d. split; [reflexivity|].
        intros H. rewrite H in E. discriminate E.
      * intros [H|(d' & [= <-] & Hd)]; [discriminate H|].
        destruct (String.eqb_spec (JsString.trim d) ""); [contradiction|reflexivity].
    + split; [discriminate|]. intros [H|(d' & H & _)]; discriminate H.
Qed.

End FilterReading.

(** ** The modifier chain and the document loop, with exceptions *)

Section GuardedPipeline.

Import Guarded.

Lemma reduce_from_null modifiers : fold_left reduceStep modifiers (Normal None) = Normal None.
Proof. induction modifiers as [|m ms IH]; [reflexivity|exact IH]. Qed.

Lemma reduce_from_throw modifiers : fold_left reduceStep modifiers Throw = Throw.
Proof. induction modifiers as [|m ms IH]; [reflexivity|exact IH]. Qed.

Lemma applyModifiers_cons m rest t :
  applyModifiers (m :: rest) t
  = match m t with
    | Normal (Some u) => applyModifiers rest u
    | Normal None => Normal None
    | Throw => Throw
    end.
Proof.
  unfold applyModifiers. simpl. destruct (m t) as [[u|]|].
  - reflexivity.
  - apply reduce_from_null.
  - apply reduce_from_throw.
Qed.

Lemma applyModifiers_chain modifiers : forall t r,
  applyModifiers modifiers t = r <-> chain_gives modifiers t r.
Proof.
  induction modifiers as [|m rest IH]; intros t r.
  - split.
    + intros <-. constructor.
    + intros H. inversion H. reflexivity.
  - rewrite applyModifiers_cons. split.
    + intros Hr. destruct (m t) as [[u|]|] eqn:E.
      * apply (chain_next m rest t u r E). now apply IH.
      * subst r. now apply chain_dropped.
      * subst r. now apply chain_failed.
    + intros H. inversion H as [|m' rest' t' u r' Hm Hc|m' rest' t' Hm|m' rest' t' Hm]; subst.
      * rewrite Hm. now apply IH.
      * now rewrite Hm.
      * now rewrite Hm.
Qed.

Lemma applyModifiers_app first rest t :
  applyModifiers (first ++ rest) t
  = match applyModifiers first t with
    | Normal (Some u) => applyModifiers rest u
    | Normal None => Normal None
    | Throw => Throw
    end.
Proof.
  unfold applyModifiers. rewrite fold_left_app.
  destruct (fold_left reduceStep first (Normal (Some t))) as [[u|]|].
  - reflexivity.
  - apply reduce_from_null.
  - apply reduce_from_throw.
Qed.

(** X13. The modifier chain applies the modifiers in order, each to the
    task the one before gave, starting from the parsed task.  A modifier
    that answers [null] ends the chain with [null], and one that throws
    ends it with the exception: whatever modifiers follow, they do not
    change the outcome. *)
Theorem modifier_chain_outcome :
  forall (modifiers : list TaskModifier) (t : TaskDataModel),
    (forall r, applyModifiers modifiers t = r <-> chain_gives modifiers t r)
    /\ (forall first m rest u,
          modifiers = first ++ m :: rest ->
          chain_gives first t (Normal (Some u)) ->
          (m u = Normal None -> applyModifiers modifiers t = Normal None)
          /\ (m u = Throw -> applyModifiers modifiers t = Throw)
          /\ (forall v, m u = Normal (Some v) ->
                        applyModifiers modifiers t = applyModifiers rest v)).
Proof.
  intros modifiers t. split; [apply applyModifiers_chain|].
  intros first m rest u -> Hfirst. apply applyModifiers_chain in Hfirst.
  rewrite applyModifiers_app, Hfirst, applyModifiers_cons.
  repeat split.
  - now intros ->.
  - now intros ->.
  - now intros v ->.
Qed.








(** With transformers that do not throw, the loop is the plain one. *)
Lemma getTasks_total (modifiers : list Options.TaskModifier)
      (filters : list Options.TaskFilter) items :
  getTasks (map (fun m t => Normal (m t)) modifiers) (map (fun f t => Normal (f t)) filters)
           items
  = (Options.getTasks modifiers filters items, 0%nat).
Proof.
  assert (Ha : forall ms acc,
             fold_left reduceStep (map (fun (m : Options.TaskModifier) t => Normal (m t)) ms)
                       (Normal acc)
             = Normal (fold_left (fun acc modifier => match acc with
                                                     | Some t' => modifier t'
                                                     | None => None
                                                     end) ms acc)).
  { induction ms as [|m ms IH]; intros acc; [reflexivity|].
    simpl. destruct acc as [t|]; apply IH. }
  assert (He : forall fs u,
             every (map (fun (f : Options.TaskFilter) t => Normal (f t)) fs) u
             = Normal (forallb (fun filter => filter u) fs)).
  { induction fs as [|f fs IH]; intros u; [reflexivity|].
    simpl. destruct (f u); [apply IH|reflexivity]. }
  induction items as [|[t|] items IH]; simpl; [reflexivity| |exact IH].
  unfold applyModifiers. rewrite Ha.
  change (fold_left _ modifiers (Some t)) with (Options.applyModifiers modifiers t).
  destruct (Options.applyModifiers modifiers t) as [u|]; [|exact IH].
  rewrite He. destruct (forallb (fun filter => filter u) filters); [|exact IH].
  now rewrite IH.
Qed.

End GuardedPipeline.
